(** * VDA 5050 connector: the Order / State wrappers

    A shallow embedding of [include/models/State.h] and
    [include/models/Order.h].  The inline member functions of [State]
    (the setters, [SetOrderState], [SetActionState]) are translated from
    their bodies.  The member functions that the headers only declare
    ([State::ValidateUpdateBase], [State::UpdateOrder],
    [State::AppendError], [Order::AcceptNewOrder], [Order::UpdateOrder],
    [Order::Validate]) and the routing of an incoming order message are
    modelled from the specification and marked as such. *)

From Stdlib Require Import PrimFloat.
From stdpp Require Import base option list strings.

Local Open Scope N_scope.
Local Open Scope string_scope.
Local Open Scope list_scope.

(** ** Messages

    The message types of [vda5050_msgs] are generated from message
    definitions; the headers include them and the sources do not hold
    them.  Each record below has the fields that the wrappers and the
    specification name.  [uint32] ids are only ever compared and are
    kept in [N]; a [double] is an IEEE 754 binary64 [float].  Rocq has
    one name space for the projections of all records, so a field name
    that several messages share carries a prefix. *)

(** Modelled from the spec: [vda5050_msgs::NodeState], declared outside
    the sources. *)
Record NodeState := mkNodeState {
  ns_nodeId : string;
  ns_sequenceId : N;
  ns_released : bool }.

(** Modelled from the spec: [vda5050_msgs::EdgeState], declared outside
    the sources. *)
Record EdgeState := mkEdgeState {
  es_edgeId : string;
  es_sequenceId : N;
  es_released : bool }.

(** Modelled from the spec: [vda5050_msgs::ActionState], declared
    outside the sources; [SetActionState] reads [actionId] and writes
    [actionStatus] and [resultDescription]. *)
Record ActionState := mkActionState {
  as_actionId : string;
  as_actionType : string;
  as_actionStatus : string;
  as_resultDescription : string }.

(** Modelled from the spec: [vda5050_msgs::Error], declared outside the
    sources; [connector_utils::CreateVDAError] in utils.h takes exactly
    these parts. *)
Record Error := mkError {
  errorType : string;
  errorDescription : string;
  errorLevel : string;
  errorReferences : list (string * string) }.

(** Modelled from the spec: [vda5050_msgs::BatteryState], declared
    outside the sources; the fields are those the setters assign. *)
Record BatteryState := mkBatteryState {
  batteryCharge : float;
  batteryVoltage : float;
  charging : bool }.

(** Modelled from the spec: [vda5050_msgs::AGVPosition], declared
    outside the sources; the fields are those the setters assign
    ([x], [y] and [theta] with a prefix). *)
Record AGVPosition := mkAGVPosition {
  pos_x : float;
  pos_y : float;
  pos_theta : float;
  localizationScore : float;
  positionInitialized : bool;
  mapId : string }.

(** Modelled from the spec: an element of
    [vda5050_msgs::InteractionZoneStates::interactionZones], declared
    outside the sources; [SetInteractionZones] touches [zoneStatus]. *)
Record InteractionZoneState := mkZone {
  zoneStatus : N }.

(** Modelled from the spec: [vda5050_msgs::InteractionZoneStates],
    declared outside the sources. *)
Record InteractionZoneStates := mkZones {
  interactionZones : list InteractionZoneState }.

#[global] Instance NodeState_eq_dec : EqDecision NodeState.
Proof. solve_decision. Defined.
#[global] Instance EdgeState_eq_dec : EqDecision EdgeState.
Proof. solve_decision. Defined.
#[global] Instance ActionState_eq_dec : EqDecision ActionState.
Proof. solve_decision. Defined.
#[global] Instance Error_eq_dec : EqDecision Error.
Proof. solve_decision. Defined.

(** ** Effects of a member function

    A member function reads and writes the private message of its
    object, may print with [ROS_ERROR_STREAM], may leave by an exception
    (the [void] checks of the two classes report a rejection that way),
    and may run into undefined behaviour (dereferencing [begin()] of an
    empty vector). *)

Inductive LogLine :=
| LogOrderIdMismatch (reported current : string)
| LogLastNodeNotFound
| LogLastEdgeNotFound
| LogActionNotFound (action_id : string).

(** Modelled from the spec: the error kinds of its section 7; the
    exception types themselves are not declared in the headers. *)
Inductive ErrorKind :=
| StructuralError
| ContinuityError
| StaleUpdateError
| IdentityMismatchError
| UnknownReferenceError.

Inductive Outcome (S A : Type) :=
| Undefined
| Raised (e : ErrorKind) (s : S) (rosout : list LogLine)
| Done (a : A) (s : S) (rosout : list LogLine).
Arguments Undefined {S A}.
Arguments Raised {S A} e s rosout.
Arguments Done {S A} a s rosout.

Definition M (S A : Type) : Type := S → Outcome S A.

Definition ret {S A} (a : A) : M S A := λ s, Done a s [].

Definition bind {S A B} (m : M S A) (k : A → M S B) : M S B :=
  λ s, match m s with
       | Undefined => Undefined
       | Raised e s1 l1 => Raised e s1 l1
       | Done a s1 l1 =>
           match k a s1 with
           | Undefined => Undefined
           | Raised e s2 l2 => Raised e s2 (l1 ++ l2)
           | Done b s2 l2 => Done b s2 (l1 ++ l2)
           end
       end.

Notation "x <- m ;; k" := (bind m (λ x, k))
  (at level 100, m at next level, right associativity, only parsing).
Notation "m ;; k" := (bind m (λ _, k))
  (at level 100, right associativity, only parsing).

Definition raise {S A} (e : ErrorKind) : M S A := λ s, Raised e s [].
Definition get {S} : M S S := λ s, Done s s [].
Definition modify {S} (f : S → S) : M S unit := λ s, Done tt (f s) [].
Definition ros_error {S} (l : LogLine) : M S unit := λ s, Done tt s [l].
Definition undefined {S A} : M S A := λ _, Undefined.

(** [v.begin()->...]: the first element, undefined on an empty vector. *)
Definition front {S A} (v : list A) : M S A :=
  match v with
  | [] => undefined
  | x :: _ => ret x
  end.

(** [for (a = 0; a < v.size(); a++) body(v[a]);] *)
Fixpoint for_each {S A} (v : list A) (body : A → M S unit) : M S unit :=
  match v with
  | [] => ret tt
  | x :: v' => body x ;; for_each v' body
  end.

Section Wrappers.

(** Messages that the wrappers store and copy and never look inside. *)
Context {Velocity SafetyState Load Info NodePosition : Type}.

(** Modelled from the spec: [vda5050_msgs::Action], declared outside the
    sources. *)
Record Action := mkAction {
  actionId : string;
  actionType : string }.

(** Modelled from the spec: [vda5050_msgs::Node], declared outside the
    sources: identity, sequence id, released flag, position, actions. *)
Record Node := mkNode {
  nodeId : string;
  sequenceId : N;
  released : bool;
  nodePosition : NodePosition;
  actions : list Action }.

(** Modelled from the spec: [vda5050_msgs::Edge], declared outside the
    sources: identity, sequence id, released flag, the ids of the start
    and end node, actions. *)
Record Edge := mkEdge {
  edgeId : string;
  e_sequenceId : N;
  e_released : bool;
  startNodeId : string;
  endNodeId : string;
  e_actions : list Action }.

(** Modelled from the spec: [vda5050_msgs::Order], declared outside the
    sources; the private member [order] of class [Order], with the
    fields its getters return. *)
Record Order := mkOrder {
  o_orderId : string;
  o_orderUpdateId : N;
  o_zoneSetId : string;
  nodes : list Node;
  edges : list Edge }.

(** Modelled from the spec: [vda5050_msgs::State], declared outside the
    sources; the private member [state] of class [State], with the
    fields that State.h reads and assigns. *)
Record StateMsg := mkState {
  headerId : Z;
  timestamp : string;
  manufacturer : string;
  version : string;
  serialNumber : string;
  zoneSetId : string;
  orderId : string;
  orderUpdateId : N;
  lastNodeId : string;
  lastNodeSequenceId : N;
  nodeStates : list NodeState;
  edgeStates : list EdgeState;
  actionStates : list ActionState;
  errors : list Error;
  information : list Info;
  batteryState : BatteryState;
  operatingMode : string;
  agvPosition : AGVPosition;
  velocity : Velocity;
  loads : list Load;
  safetyState : SafetyState;
  driving : bool;
  paused : bool;
  newBaseRequest : bool;
  distanceSinceLastNode : float }.

(** Assignment to one member of [state]. *)

Definition set_orderUpdateId v (s : StateMsg) : StateMsg :=
  mkState
    (headerId s) (timestamp s) (manufacturer s) (version s) (serialNumber s)
    (zoneSetId s) (orderId s) v (lastNodeId s) (lastNodeSequenceId s)
    (nodeStates s) (edgeStates s) (actionStates s) (errors s) (information s)
    (batteryState s) (operatingMode s) (agvPosition s) (velocity s) (loads s)
    (safetyState s) (driving s) (paused s) (newBaseRequest s)
    (distanceSinceLastNode s).

Definition set_lastNodeId v (s : StateMsg) : StateMsg :=
  mkState
    (headerId s) (timestamp s) (manufacturer s) (version s) (serialNumber s)
    (zoneSetId s) (orderId s) (orderUpdateId s) v (lastNodeSequenceId s)
    (nodeStates s) (edgeStates s) (actionStates s) (errors s) (information s)
    (batteryState s) (operatingMode s) (agvPosition s) (velocity s) (loads s)
    (safetyState s) (driving s) (paused s) (newBaseRequest s)
    (distanceSinceLastNode s).

Definition set_lastNodeSequenceId v (s : StateMsg) : StateMsg :=
  mkState
    (headerId s) (timestamp s) (manufacturer s) (version s) (serialNumber s)
    (zoneSetId s) (orderId s) (orderUpdateId s) (lastNodeId s) v
    (nodeStates s) (edgeStates s) (actionStates s) (errors s) (information s)
    (batteryState s) (operatingMode s) (agvPosition s) (velocity s) (loads s)
    (safetyState s) (driving s) (paused s) (newBaseRequest s)
    (distanceSinceLastNode s).

Definition set_nodeStates v (s : StateMsg) : StateMsg :=
  mkState
    (headerId s) (timestamp s) (manufacturer s) (version s) (serialNumber s)
    (zoneSetId s) (orderId s) (orderUpdateId s) (lastNodeId s)
    (lastNodeSequenceId s) v (edgeStates s) (actionStates s) (errors s)
    (information s) (batteryState s) (operatingMode s) (agvPosition s)
    (velocity s) (loads s) (safetyState s) (driving s) (paused s)
    (newBaseRequest s) (distanceSinceLastNode s).

Definition set_edgeStates v (s : StateMsg) : StateMsg :=
  mkState
    (headerId s) (timestamp s) (manufacturer s) (version s) (serialNumber s)
    (zoneSetId s) (orderId s) (orderUpdateId s) (lastNodeId s)
    (lastNodeSequenceId s) (nodeStates s) v (actionStates s) (errors s)
    (information s) (batteryState s) (operatingMode s) (agvPosition s)
    (velocity s) (loads s) (safetyState s) (driving s) (paused s)
    (newBaseRequest s) (distanceSinceLastNode s).

Definition set_actionStates v (s : StateMsg) : StateMsg :=
  mkState
    (headerId s) (timestamp s) (manufacturer s) (version s) (serialNumber s)
    (zoneSetId s) (orderId s) (orderUpdateId s) (lastNodeId s)
    (lastNodeSequenceId s) (nodeStates s) (edgeStates s) v (errors s)
    (information s) (batteryState s) (operatingMode s) (agvPosition s)
    (velocity s) (loads s) (safetyState s) (driving s) (paused s)
    (newBaseRequest s) (distanceSinceLastNode s).

Definition set_errors v (s : StateMsg) : StateMsg :=
  mkState
    (headerId s) (timestamp s) (manufacturer s) (version s) (serialNumber s)
    (zoneSetId s) (orderId s) (orderUpdateId s) (lastNodeId s)
    (lastNodeSequenceId s) (nodeStates s) (edgeStates s) (actionStates s) v
    (information s) (batteryState s) (operatingMode s) (agvPosition s)
    (velocity s) (loads s) (safetyState s) (driving s) (paused s)
    (newBaseRequest s) (distanceSinceLastNode s).

Definition set_batteryState v (s : StateMsg) : StateMsg :=
  mkState
    (headerId s) (timestamp s) (manufacturer s) (version s) (serialNumber s)
    (zoneSetId s) (orderId s) (orderUpdateId s) (lastNodeId s)
    (lastNodeSequenceId s) (nodeStates s) (edgeStates s) (actionStates s)
    (errors s) (information s) v (operatingMode s) (agvPosition s)
    (velocity s) (loads s) (safetyState s) (driving s) (paused s)
    (newBaseRequest s) (distanceSinceLastNode s).

Definition set_agvPosition v (s : StateMsg) : StateMsg :=
  mkState
    (headerId s) (timestamp s) (manufacturer s) (version s) (serialNumber s)
    (zoneSetId s) (orderId s) (orderUpdateId s) (lastNodeId s)
    (lastNodeSequenceId s) (nodeStates s) (edgeStates s) (actionStates s)
    (errors s) (information s) (batteryState s) (operatingMode s) v
    (velocity s) (loads s) (safetyState s) (driving s) (paused s)
    (newBaseRequest s) (distanceSinceLastNode s).

Definition set_batteryCharge (v : float) (b : BatteryState) : BatteryState :=
  mkBatteryState v (batteryVoltage b) (charging b).

Definition set_localizationScore (v : float) (p : AGVPosition) : AGVPosition :=
  mkAGVPosition (pos_x p) (pos_y p) (pos_theta p) v (positionInitialized p)
    (mapId p).

(** ** [State]: the inline member functions of State.h *)

(** The conversion of a [bool] operand compared against a [double]. *)
Definition double_of_bool (b : bool) : float :=
  if b then 1%float else 0%float.

(** [SetBatteryCharge]: the guard [0.0 <= battery_charge <= 100.0]
    parses as [(0.0 <= battery_charge) <= 100.0]. *)
Definition SetBatteryCharge (battery_charge : float) : M StateMsg bool :=
  if PrimFloat.leb (double_of_bool (PrimFloat.leb 0 battery_charge)) 100 then
    modify (λ s, set_batteryState (set_batteryCharge battery_charge (batteryState s)) s) ;;
    ret true
  else ret false.

(** [SetLocalizationScore]: the guard [0.0 <= score <= 1.0]. *)
Definition SetLocalizationScore (score : float) : M StateMsg bool :=
  if PrimFloat.leb (double_of_bool (PrimFloat.leb 0 score)) 1 then
    modify (λ s, set_agvPosition (set_localizationScore score (agvPosition s)) s) ;;
    ret true
  else ret false.

(** The loop of [SetInteractionZones] over the local copy [zones]. *)
Definition normalize_zone (zone : InteractionZoneState) : InteractionZoneState :=
  if decide (zoneStatus zone ≠ 0) then mkZone 1 else zone.

(** [SetInteractionZones]: [zones] is a local copy; the assignment
    [state.interactionZones = zones.interactionZones] is commented out. *)
Definition SetInteractionZones (interaction_zones : InteractionZoneStates)
  : M StateMsg unit :=
  let zones := interaction_zones in
  let zones := mkZones (normalize_zone <$> interactionZones zones) in
  ret tt.

(** [it->actionStatus = ...; it->resultDescription = ...;] *)
Definition write_action (action_status result_description : string)
    (a : ActionState) : ActionState :=
  mkActionState (as_actionId a) (as_actionType a) action_status
    result_description.

(** [SetActionState(const vda5050_msgs::ActionState updated_as)] *)
Definition SetActionState (updated_as : ActionState) : M StateMsg unit :=
  st <- get ;;
  match list_find (λ a, as_actionId updated_as = as_actionId a)
          (actionStates st) with
  | Some (it, _) =>
      modify (λ s, set_actionStates
        (alter (write_action (as_actionStatus updated_as)
                  (as_resultDescription updated_as)) it (actionStates s)) s)
  | None => ros_error (LogActionNotFound (as_actionId updated_as))
  end.


(** The block of [SetOrderState] that synchronises the node states. *)
Definition sync_nodes (order_state : StateMsg) : M StateMsg unit :=
  st <- get ;;
  match nodeStates order_state with
  | _ :: _ =>
      changed <-
        (if decide (lastNodeSequenceId order_state ≠ lastNodeSequenceId st)
         then ret true
         else
           h <- front (nodeStates st) ;;
           r <- front (nodeStates order_state) ;;
           ret (bool_decide (ns_sequenceId h ≠ ns_sequenceId r))) ;;
      if (changed : bool) then
        h <- front (nodeStates st) ;;
        if decide (ns_sequenceId h = lastNodeSequenceId order_state) then
          modify (set_nodeStates (drop 1 (nodeStates st))) ;;
          modify (set_lastNodeId (lastNodeId order_state)) ;;
          modify (set_lastNodeSequenceId (lastNodeSequenceId order_state))
        else
          match list_find
                  (λ ns, ns_sequenceId ns = lastNodeSequenceId st)
                  (nodeStates st) with
          | Some (it, _) =>
              modify (set_nodeStates (drop it (nodeStates st))) ;;
              modify (set_lastNodeId (lastNodeId order_state)) ;;
              modify (set_lastNodeSequenceId (lastNodeSequenceId order_state))
          | None => ros_error LogLastNodeNotFound
          end
      else ret tt
  | [] =>
      modify (set_lastNodeId (lastNodeId order_state)) ;;
      modify (set_lastNodeSequenceId (lastNodeSequenceId order_state)) ;;
      modify (set_nodeStates [])
  end.

(** The block of [SetOrderState] under the comment [// Edges]. *)
Definition sync_edges (order_state : StateMsg) : M StateMsg unit :=
  st <- get ;;
  match edgeStates st with
  | h :: _ =>
      match edgeStates order_state with
      | r :: _ =>
          if decide (es_sequenceId h ≠ es_sequenceId r) then
            match list_find (λ es, es_sequenceId es = es_sequenceId r)
                    (edgeStates st) with
            | Some (it, _) => modify (set_edgeStates (drop it (edgeStates st)))
            | None => ros_error LogLastEdgeNotFound
            end
          else ret tt
      | [] => modify (set_edgeStates [])
      end
  | [] => ret tt
  end.

(** The closing loop of [SetOrderState] over the reported action states. *)
Definition sync_actions (order_state : StateMsg) : M StateMsg unit :=
  for_each (actionStates order_state) SetActionState.

(** [SetOrderState(const vda5050_msgs::State order_state)] *)
Definition SetOrderState (order_state : StateMsg) : M StateMsg unit :=
  st <- get ;;
  if decide (orderId st ≠ orderId order_state) then
    ros_error (LogOrderIdMismatch (orderId order_state) (orderId st))
  else
    sync_nodes order_state ;;
    sync_edges order_state ;;
    sync_actions order_state.

(** ** [State]: member functions declared in State.h, defined elsewhere *)

(** Modelled from the spec: the default "not yet started" status that a
    freshly derived action state carries. *)
Definition WAITING : string := "WAITING".

(** Modelled from the spec: [State::NodeToNodeState], declared in State.h
    without a body.  A fresh node state is derived one-to-one from the
    node, [released] copied from it. *)
Definition NodeToNodeState (n : Node) : NodeState :=
  mkNodeState (nodeId n) (sequenceId n) (released n).

(** Modelled from the spec: [State::EdgeToEdgeState], as for nodes. *)
Definition EdgeToEdgeState (e : Edge) : EdgeState :=
  mkEdgeState (edgeId e) (e_sequenceId e) (e_released e).

(** Modelled from the spec: [State::ActionToActionState]; the fresh state
    starts in the default status with an empty result. *)
Definition ActionToActionState (a : Action) : ActionState :=
  mkActionState (actionId a) (actionType a) WAITING "".

(** Modelled from the spec: [State::ValidateUpdateBase], declared in
    State.h without a body.  The first node of the update must equal, in
    [nodeId] and [sequenceId], the current [lastNodeId] and
    [lastNodeSequenceId]; a mismatch rejects the whole update. *)
Definition ValidateUpdateBase (order_update : Order) : M StateMsg unit :=
  st <- get ;;
  match nodes order_update with
  | first :: _ =>
      if decide (nodeId first = lastNodeId st
                 ∧ sequenceId first = lastNodeSequenceId st)
      then ret tt
      else raise ContinuityError
  | [] => raise ContinuityError
  end.

(** The actions attached to the nodes and edges of an order. *)
Definition order_actions (o : Order) : list Action :=
  (nodes o ≫= actions) ++ (edges o ≫= e_actions).

(** The ids of the actions that hang on the horizon of an order: on a
    node or an edge that is not released.  An action state carries no
    [released] flag of its own. *)
Definition horizon_action_ids (o : Order) : list string :=
  actionId <$>
    ((filter (λ n, released n = false) (nodes o) ≫= actions)
     ++ (filter (λ e, e_released e = false) (edges o) ≫= e_actions)).

(** Modelled from the spec: [State::UpdateOrder], declared in State.h
    without a body ("Adds the new nodes, edges and actions from an order
    update to the state message.  Clears horizon.").  All unreleased
    node, edge and action states are discarded; fresh entries derived
    from the new nodes, edges and actions of the update are appended;
    the released entries stay as they are.  The update id is raised.
    New are the nodes and edges that lie beyond the base that is kept
    (their sequence id is above every kept one, which keeps the lists
    free of repeats and in sequence order) and the actions whose id the
    kept action states do not carry. *)
Definition State_UpdateOrder (current_order order_update : Order)
  : M StateMsg unit :=
  modify (λ s, set_nodeStates
    (filter (λ ns, ns_released ns = true) (nodeStates s)) s) ;;
  modify (λ s, set_edgeStates
    (filter (λ es, es_released es = true) (edgeStates s)) s) ;;
  modify (λ s, set_actionStates
    (filter (λ a, as_actionId a ∉ horizon_action_ids current_order)
       (actionStates s)) s) ;;
  modify (λ s, set_nodeStates
    (nodeStates s ++
     (NodeToNodeState <$>
        filter (λ n, Forall (λ ns, (ns_sequenceId ns < sequenceId n)%N)
                       (nodeStates s))
          (nodes order_update))) s) ;;
  modify (λ s, set_edgeStates
    (edgeStates s ++
     (EdgeToEdgeState <$>
        filter (λ e, Forall (λ es, (es_sequenceId es < e_sequenceId e)%N)
                       (edgeStates s))
          (edges order_update))) s) ;;
  modify (λ s, set_actionStates
    (actionStates s ++
     (ActionToActionState <$>
        filter (λ a, actionId a ∉ as_actionId <$> actionStates s)
          (order_actions order_update))) s) ;;
  modify (set_orderUpdateId (o_orderUpdateId order_update)).

(** What the daemon does with an order update: check, then merge. *)
Definition ValidatedUpdate (current_order order_update : Order)
  : M StateMsg unit :=
  ValidateUpdateBase order_update ;;
  State_UpdateOrder current_order order_update.

(** Modelled from the spec: [State::ClearErrorWithType], declared in
    State.h without a body ("Removes errors from the errors list based
    on their error type."). *)
Definition ClearErrorWithType (error_type : string) : M StateMsg unit :=
  modify (λ s, set_errors
    (filter (λ e, errorType e ≠ error_type) (errors s)) s).

(** Modelled from the spec: [State::AppendError], declared in State.h
    without a body ("Appends the provided error to the list of errors in
    the state message.  If an error type already exists, it is replaced
    with the provided error.").  Any existing entry of the type goes,
    the provided error is appended. *)
Definition AppendError (error : Error) : M StateMsg unit :=
  ClearErrorWithType (errorType error) ;;
  modify (λ s, set_errors (errors s ++ [error]) s).

(** ** [Order]: member functions declared in Order.h, defined elsewhere *)

Definition set_order (update_id : N) (ns : list Node) (es : list Edge)
    (o : Order) : Order :=
  mkOrder (o_orderId o) update_id (o_zoneSetId o) ns es.

(** Modelled from the spec: the graph validator behind [Order::Validate].
    In order: at least one node; one edge fewer than nodes; sequence ids
    alternate from 0, nodes even and edges odd; every edge joins the
    nodes next to it. *)
Definition validate_graph (ns : list Node) (es : list Edge) : bool :=
  bool_decide (ns ≠ [])
  && bool_decide (length es = (length ns - 1)%nat)
  && bool_decide (sequenceId <$> ns
                  = (λ i, 2 * N.of_nat i) <$> seq 0 (length ns))
  && bool_decide (e_sequenceId <$> es
                  = (λ i, 2 * N.of_nat i + 1) <$> seq 0 (length es))
  && bool_decide (startNodeId <$> es = nodeId <$> take (length es) ns)
  && bool_decide (endNodeId <$> es = nodeId <$> take (length es) (drop 1 ns)).

(** Modelled from the spec: [Order::UpdateOrder], declared in Order.h
    without a body.  The update id must be strictly greater than the
    current one; the first node of the update must be the last node of
    the current order (an overlap of exactly one node); the
    concatenation must pass the validator.  Then the nodes and edges are
    appended and the update id is raised. *)
Definition Order_UpdateOrder (order_update : Order) : M Order unit :=
  order <- get ;;
  if decide (o_orderUpdateId order_update ≤ o_orderUpdateId order)%N then
    raise StaleUpdateError
  else
    match last (nodes order), nodes order_update with
    | Some tail_node, first :: new_nodes =>
        if decide (nodeId first = nodeId tail_node
                   ∧ sequenceId first = sequenceId tail_node) then
          let ns := nodes order ++ new_nodes in
          let es := edges order ++ edges order_update in
          if validate_graph ns es then
            modify (set_order (o_orderUpdateId order_update) ns es)
          else raise StructuralError
        else raise ContinuityError
    | _, _ => raise ContinuityError
    end.

(** Modelled from the spec: the decision rule for an incoming order
    message.  It is an update iff the order id is the current one and
    the update id is strictly greater. *)
Definition is_order_update (order incoming : Order) : bool :=
  bool_decide (o_orderId incoming = o_orderId order)
  && bool_decide (o_orderUpdateId order < o_orderUpdateId incoming)%N.

(** Modelled from the spec: [Order::AcceptNewOrder], declared in Order.h
    without a body.  The order id, update id, zone set id, nodes and
    edges are replaced by those of the candidate once its own nodes and
    edges pass the validator. *)
Definition Order_AcceptNewOrder (new_order : Order) : M Order unit :=
  if validate_graph (nodes new_order) (edges new_order) then
    modify (λ _, new_order)
  else raise StructuralError.

(** Modelled from the spec: what becomes of an incoming order message
    (section 4.2); the code that routes it is not among the sources.  A
    message that is an update by the decision rule goes to
    [Order::UpdateOrder].  Any other message goes the way of a new
    order: [Order::AcceptNewOrder] is used when the order id differs, or
    when it is the same and the update id is 0 (a restart); an equal or
    lower update id on the same order id is stale and rejected. *)
Definition ReceiveOrder (incoming : Order) : M Order unit :=
  order <- get ;;
  if is_order_update order incoming then Order_UpdateOrder incoming
  else if decide (o_orderId incoming = o_orderId order
                  ∧ o_orderUpdateId incoming ≠ 0) then
    raise StaleUpdateError
  else Order_AcceptNewOrder incoming.

(** ** [State]: further inline member functions of State.h *)

Definition set_manufacturer v (s : StateMsg) : StateMsg :=
  mkState
    (headerId s) (timestamp s) v (version s) (serialNumber s) (zoneSetId s)
    (orderId s) (orderUpdateId s) (lastNodeId s) (lastNodeSequenceId s)
    (nodeStates s) (edgeStates s) (actionStates s) (errors s) (information s)
    (batteryState s) (operatingMode s) (agvPosition s) (velocity s) (loads s)
    (safetyState s) (driving s) (paused s) (newBaseRequest s)
    (distanceSinceLastNode s).

Definition set_version v (s : StateMsg) : StateMsg :=
  mkState
    (headerId s) (timestamp s) (manufacturer s) v (serialNumber s)
    (zoneSetId s) (orderId s) (orderUpdateId s) (lastNodeId s)
    (lastNodeSequenceId s) (nodeStates s) (edgeStates s) (actionStates s)
    (errors s) (information s) (batteryState s) (operatingMode s)
    (agvPosition s) (velocity s) (loads s) (safetyState s) (driving s)
    (paused s) (newBaseRequest s) (distanceSinceLastNode s).

Definition set_serialNumber v (s : StateMsg) : StateMsg :=
  mkState
    (headerId s) (timestamp s) (manufacturer s) (version s) v (zoneSetId s)
    (orderId s) (orderUpdateId s) (lastNodeId s) (lastNodeSequenceId s)
    (nodeStates s) (edgeStates s) (actionStates s) (errors s) (information s)
    (batteryState s) (operatingMode s) (agvPosition s) (velocity s) (loads s)
    (safetyState s) (driving s) (paused s) (newBaseRequest s)
    (distanceSinceLastNode s).


(** [SetManufacturer], [SetVersion], [SetSerialNumber] and the getters
    beside them. *)
Definition SetManufacturer (manufacturer : string) : M StateMsg unit :=
  modify (set_manufacturer manufacturer).
Definition GetManufacturer : M StateMsg string :=
  st <- get ;; ret (manufacturer st).
Definition SetVersion (version : string) : M StateMsg unit :=
  modify (set_version version).
Definition GetVersion : M StateMsg string :=
  st <- get ;; ret (version st).
Definition SetSerialNumber (sn : string) : M StateMsg unit :=
  modify (set_serialNumber sn).
Definition GetSerialNumber : M StateMsg string :=
  st <- get ;; ret (serialNumber st).

(** The operating modes [vda5050_msgs::State::AUTOMATIC] and so on are
    constants of the generated message type. *)
Context (AUTOMATIC SEMIAUTOMATIC MANUAL SERVICE TEACHIN : string).


(** The rest of a factsheet, which the wrapper stores and never reads. *)
Context {FactsheetBody : Type}.

(** Modelled from the spec: [vda5050_msgs::Factsheet], declared outside
    the sources; [SetFactsheet] assigns its three header fields. *)
Record Factsheet := mkFactsheet {
  fs_version : string;
  fs_manufacturer : string;
  fs_serialNumber : string;
  fs_body : FactsheetBody }.

(** The two private members of class [State]. *)
Record StateClass := mkStateClass {
  state : StateMsg;
  factsheet : Factsheet }.

(** A member function that only touches [state], on the whole object. *)
Definition on_state {A} (m : M StateMsg A) : M StateClass A :=
  λ this, match m (state this) with
          | Undefined => Undefined
          | Raised e s l => Raised e (mkStateClass s (factsheet this)) l
          | Done a s l => Done a (mkStateClass s (factsheet this)) l
          end.

(** [GetState] and [GetFactsheet] return copies of the members. *)
Definition GetState : M StateClass StateMsg :=
  this <- get ;; ret (state this).
Definition GetFactsheet : M StateClass Factsheet :=
  this <- get ;; ret (factsheet this).

(** [SetFactsheet]: the message is stored, then its header fields are
    overwritten with those of [state]. *)
Definition SetFactsheet (factsheet_msg : Factsheet) : M StateClass unit :=
  modify (λ this, mkStateClass (state this) factsheet_msg) ;;
  modify (λ this, mkStateClass (state this)
    (mkFactsheet (version (state this)) (fs_manufacturer (factsheet this))
       (fs_serialNumber (factsheet this)) (fs_body (factsheet this)))) ;;
  modify (λ this, mkStateClass (state this)
    (mkFactsheet (fs_version (factsheet this)) (manufacturer (state this))
       (fs_serialNumber (factsheet this)) (fs_body (factsheet this)))) ;;
  modify (λ this, mkStateClass (state this)
    (mkFactsheet (fs_version (factsheet this)) (fs_manufacturer (factsheet this))
       (serialNumber (state this)) (fs_body (factsheet this)))).


End Wrappers.

(** ** Specification vocabulary *)


(** [it] is the first position that holds the action id. *)
Definition first_with_id (action_id : string) (it : nat)
    (l : list ActionState) : Prop :=
  (∃ a, l !! it = Some a ∧ as_actionId a = action_id)
  ∧ ∀ j b, l !! j = Some b → (j < it)%nat → as_actionId b ≠ action_id.

(** The three members that the node block of [SetOrderState] assigns:
    the first [k] node states are erased and the last node is set. *)
Definition nodes_set {Velocity SafetyState Load Info : Type}
    (k : nat) (last_id : string) (last_seq : N)
    (st : @StateMsg Velocity SafetyState Load Info) : StateMsg :=
  set_lastNodeSequenceId last_seq
    (set_lastNodeId last_id (set_nodeStates (drop k (nodeStates st)) st)).

(** ** Sample data: an order under way *)

Definition quiet_battery : BatteryState := mkBatteryState 0 0 false.
Definition origin : AGVPosition := mkAGVPosition 0 0 0 0 false "".

(** A state message with default telemetry and the given progress. *)
Definition progress (order_id : string) (update_id : N) (last_node : string)
    (last_seq : N) (ns : list NodeState) (es : list EdgeState)
    (acts : list ActionState) (errs : list Error)
  : @StateMsg unit unit unit unit :=
  mkState 0 "" "" "" "" "" order_id update_id last_node last_seq ns es acts
    errs [] quiet_battery "" origin tt [] tt false false false 0.

Definition n2 := mkNodeState "n2" 2 true.
Definition n4 := mkNodeState "n4" 4 true.
Definition n6 := mkNodeState "n6" 6 false.
Definition e1 := mkEdgeState "e1" 1 true.
Definition e3 := mkEdgeState "e3" 3 true.
Definition e5 := mkEdgeState "e5" 5 false.
Definition n8 := mkNodeState "n8" 8 false.
Definition pick := mkActionState "a1" "pick" "WAITING" "".
Definition drop_off := mkActionState "a2" "drop" "WAITING" "".

(** The vehicle stands on [n0]; three nodes lie ahead. *)
Definition at_n0 : @StateMsg unit unit unit unit :=
  progress "O1" 0 "n0" 0 [n2; n4; n6] [e1; e3; e5] [pick; drop_off] [].

Definition e7 := mkEdgeState "e7" 7 false.
Definition weigh := mkActionState "a3" "weigh" "WAITING" "".

Definition node (id : string) (seq : N) (rel : bool) (acts : list Action)
  : @Node unit := mkNode id seq rel tt acts.

(** Order O1 as first sent: base up to [n4], horizon [n6] and [n8]. *)
Definition order_O1 : @Order unit :=
  mkOrder "O1" 0 "hall"
    [node "n0" 0 true []; node "n2" 2 true [mkAction "a1" "pick"];
     node "n4" 4 true []; node "n6" 6 false [mkAction "a2" "drop"];
     node "n8" 8 false [mkAction "a3" "weigh"]]
    [mkEdge "e1" 1 true "n0" "n2" []; mkEdge "e3" 3 true "n2" "n4" [];
     mkEdge "e5" 5 false "n4" "n6" []; mkEdge "e7" 7 false "n6" "n8" []].

(** The state for it while the vehicle stands on [n0]. *)
Definition planned : @StateMsg unit unit unit unit :=
  progress "O1" 0 "n0" 0 [n2; n4; n6; n8] [e1; e3; e5; e7]
    [pick; drop_off; weigh] [].

(** Update 1 grafts onto [n0], releases [n6] and gives up [n8]. *)
Definition update_1 : @Order unit :=
  mkOrder "O1" 1 "hall"
    [node "n0" 0 true []; node "n2" 2 true [mkAction "a1" "pick"];
     node "n4" 4 true []; node "n6" 6 true [mkAction "a2" "drop"]]
    [mkEdge "e1" 1 true "n0" "n2" []; mkEdge "e3" 3 true "n2" "n4" [];
     mkEdge "e5" 5 true "n4" "n6" []].

(** An update that starts from a node the vehicle is not on. *)
Definition update_from_n2 : @Order unit :=
  mkOrder "O1" 1 "hall"
    [node "n2" 2 true []; node "n4" 4 true []] [mkEdge "e3" 3 true "n2" "n4" []].

(** An extension of O1 beyond [n8], and the same sent again. *)
Definition extension : @Order unit :=
  mkOrder "O1" 1 "hall"
    [node "n8" 8 false []; node "n10" 10 false []]
    [mkEdge "e9" 9 false "n8" "n10" []].

(** O1 sent again from scratch with another plan: same order id,
    update id 0. *)
Definition restart_O1 : @Order unit :=
  mkOrder "O1" 0 "hall"
    [node "n0" 0 true []; node "n3" 2 true []]
    [mkEdge "e1" 1 true "n0" "n3" []].

Definition order_O1_extended : @Order unit :=
  set_order 1 (nodes order_O1 ++ [node "n10" 10 false []])
    (edges order_O1 ++ edges extension) order_O1.

(** The scenario of the specification: O1 with [n0] released and [n1] in
    the horizon; the vehicle has reached [n1]; update 1 grafts [n2] onto
    [n1], another update starts from the superseded [n0]. *)
Definition scenario_order : @Order unit :=
  mkOrder "O1" 0 "hall" [node "n0" 0 true []; node "n1" 2 false []]
    [mkEdge "e0" 1 true "n0" "n1" []].

Definition scenario_state : @StateMsg unit unit unit unit :=
  progress "O1" 0 "n1" 2 [mkNodeState "n1" 2 false] [] [] [].

Definition scenario_update : @Order unit :=
  mkOrder "O1" 1 "hall" [node "n1" 2 true []; node "n2" 4 false []]
    [mkEdge "e1" 3 false "n1" "n2" []].

Definition scenario_late_update : @Order unit :=
  mkOrder "O1" 1 "hall" [node "n0" 0 true []; node "n1" 2 true []]
    [mkEdge "e0" 1 true "n0" "n1" []].

Definition overheated : Error := mkError "overheat" "motor at 90 C" "WARNING" [].
Definition overheated_again : Error :=
  mkError "overheat" "motor at 120 C" "FATAL" [].
Definition blocked : Error := mkError "blocked" "obstacle ahead" "WARNING" [].

(** A report after [n2] and [n4] were both passed. *)
Definition passed_n4 : @StateMsg unit unit unit unit :=
  progress "O1" 0 "n4" 4 [n6] [e5] [] [].

(** A report whose last node the state has never heard of; it also
    reports edge and action progress. *)
Definition stray_report : @StateMsg unit unit unit unit :=
  progress "O1" 0 "n10" 10 [mkNodeState "n12" 12 false] [e3; e5]
    [mkActionState "a1" "pick" "FINISHED" "done"] [].

(** A report for another order. *)
Definition foreign_report : @StateMsg unit unit unit unit :=
  progress "O2" 0 "n2" 2 [n4; n6] [e3; e5]
    [mkActionState "a1" "pick" "FINISHED" "done"] [].

(** A freshly constructed [State], and a report that arrives before any
    order was accepted. *)
Definition idle : @StateMsg unit unit unit unit :=
  progress "" 0 "" 0 [] [] [] [].

Definition early_report : @StateMsg unit unit unit unit :=
  progress "" 0 "n2" 2 [n4] [] [] [].

(** A report after [n2] was reached: [a1] is finished, [a9] is an action
    the state does not know. *)
Definition reached_n2 : @StateMsg unit unit unit unit :=
  progress "O1" 0 "n2" 2 [n4; n6] [e3; e5]
    [mkActionState "a1" "pick" "FINISHED" "done";
     mkActionState "a9" "lift" "RUNNING" ""] [].

Definition after_reached_n2 : @StateMsg unit unit unit unit :=
  progress "O1" 0 "n2" 2 [n4; n6] [e3; e5]
    [mkActionState "a1" "pick" "FINISHED" "done"; drop_off] [].

(** A report that is in step with [at_n0] but names another last node
    id and an edge the state does not hold. *)
Definition in_step_report : @StateMsg unit unit unit unit :=
  progress "O1" 0 "dock" 0 [n2; n4; n6] [mkEdgeState "e9" 9 false] [] [].

(** A report while the vehicle still stands on [n0] and works on [a1]. *)
Definition steady_report : @StateMsg unit unit unit unit :=
  progress "O1" 0 "n0" 0 [n2; n4; n6] [e1; e3; e5]
    [mkActionState "a1" "pick" "RUNNING" ""] [].

(** A report at the end of the order: nothing left. *)
Definition finished_report : @StateMsg unit unit unit unit :=
  progress "O1" 0 "n6" 6 [] [] [] [].

(** The object of class [State] around [at_n0], with a factsheet. *)
Definition vehicle : @StateClass unit unit unit unit (list string) :=
  mkStateClass (set_version "2.0.0" (set_manufacturer "fml" at_n0))
    (mkFactsheet "" "" "" []).


Section Properties.

Context {Velocity SafetyState Load Info NodePosition : Type}.
Implicit Types st order_state : @StateMsg Velocity SafetyState Load Info.

(** ** Telemetry setters *)



(** Out of the documented range, and not even a number. *)
Example battery_charge_150 :
  SetBatteryCharge 150 at_n0
    = Done true (set_batteryState (mkBatteryState 150 0 false) at_n0) [].
Proof. reflexivity. Qed.

Example localization_score_nan :
  ∃ s, SetLocalizationScore PrimFloat.nan at_n0 = Done true s [].
Proof. eexists. reflexivity. Qed.

(** The loop itself does what the comment says, on the copy. *)
Lemma normalize_zone_status zone :
  zoneStatus (normalize_zone zone) = 0 ∨ zoneStatus (normalize_zone zone) = 1.
Proof. unfold normalize_zone. case_decide; simpl; [by right | left; lia]. Qed.

(** C10: [SetInteractionZones] leaves the state as it is for every
    input; the normalised zones live in a local copy that is dropped. *)
Theorem C10_SetInteractionZones_no_effect st (zones : InteractionZoneStates) :
  SetInteractionZones zones st = Done tt st [].
Proof. reflexivity. Qed.

(** ** Running the effects *)

Ltac run :=
  unfold bind, get, modify, ret, ros_error, raise, front, undefined; simpl.

Lemma set_edgeStates_same st : set_edgeStates (edgeStates st) st = st.
Proof. by destruct st. Qed.

Lemma set_actionStates_same st : set_actionStates (actionStates st) st = st.
Proof. by destruct st. Qed.

(** ** [SetActionState] *)


Lemma SetActionState_found st (updated_as a : ActionState) (it : nat) :
  list_find (λ a, as_actionId updated_as = as_actionId a) (actionStates st)
    = Some (it, a) →
  SetActionState updated_as st
  = Done tt (set_actionStates
       (alter (write_action (as_actionStatus updated_as)
                 (as_resultDescription updated_as)) it (actionStates st)) st) [].
Proof. intros Hfind. unfold SetActionState. run. by rewrite Hfind. Qed.

Lemma SetActionState_missing st (updated_as : ActionState) :
  list_find (λ a, as_actionId updated_as = as_actionId a) (actionStates st)
    = None →
  SetActionState updated_as st
  = Done tt st [LogActionNotFound (as_actionId updated_as)].
Proof. intros Hfind. unfold SetActionState. run. by rewrite Hfind. Qed.



(** ** [SetOrderState] *)

(** Every pass through [SetActionState] returns, and writes at most
    [actionStates]. *)
Lemma SetActionState_frame st (updated_as : ActionState) :
  ∃ acts log,
    SetActionState updated_as st = Done tt (set_actionStates acts st) log.
Proof.
  destruct (list_find (λ a, as_actionId updated_as = as_actionId a)
              (actionStates st)) as [[it a]|] eqn:Hfind.
  - eexists _, _. by eapply SetActionState_found.
  - exists (actionStates st), [LogActionNotFound (as_actionId updated_as)].
    rewrite set_actionStates_same. by apply SetActionState_missing.
Qed.

Lemma sync_actions_frame st order_state :
  ∃ acts log,
    sync_actions order_state st = Done tt (set_actionStates acts st) log.
Proof.
  unfold sync_actions.
  generalize (actionStates order_state) as l. intros l. revert st.
  induction l as [|a l IH]; intros st.
  - exists (actionStates st), []. by rewrite set_actionStates_same.
  - destruct (SetActionState_frame st a) as (acts1 & log1 & H1).
    destruct (IH (set_actionStates acts1 st)) as (acts2 & log2 & H2).
    exists acts2, (log1 ++ log2).
    simpl. unfold bind at 1. rewrite H1, H2. done.
Qed.

Lemma sync_edges_frame st order_state :
  ∃ es log, sync_edges order_state st = Done tt (set_edgeStates es st) log.
Proof.
  unfold sync_edges. run.
  destruct (edgeStates st) as [|h tl] eqn:Hst.
  { exists [], []. by rewrite <- Hst, set_edgeStates_same. }
  destruct (edgeStates order_state) as [|r rl]; [by eexists _, _ |].
  case_decide.
  - destruct (list_find _ _) as [[it e]|]; [by eexists _, _ |].
    exists (h :: tl), [LogLastEdgeNotFound].
    by rewrite <- Hst, set_edgeStates_same.
  - exists (h :: tl), []. by rewrite <- Hst, set_edgeStates_same.
Qed.

(** C5: a report for another order id is rejected as a whole: the error
    is printed and the state, with [nodeStates], [edgeStates],
    [actionStates], [lastNodeId] and [lastNodeSequenceId], is the one
    before the call. *)
Theorem C5_SetOrderState_foreign_order_rejected st order_state :
  orderId order_state ≠ orderId st →
  SetOrderState order_state st
  = Done tt st [LogOrderIdMismatch (orderId order_state) (orderId st)].
Proof.
  intros Hid. unfold SetOrderState. run.
  case_decide; [done | congruence].
Qed.

(** The node block when neither the reported nor the current last
    sequence id is held by a node state: only the error line. *)
Lemma sync_nodes_not_found st order_state :
  nodeStates order_state ≠ [] →
  nodeStates st ≠ [] →
  (lastNodeSequenceId order_state ≠ lastNodeSequenceId st
   ∨ ns_sequenceId <$> head (nodeStates st)
     ≠ ns_sequenceId <$> head (nodeStates order_state)) →
  lastNodeSequenceId order_state ∉ ns_sequenceId <$> nodeStates st →
  lastNodeSequenceId st ∉ ns_sequenceId <$> nodeStates st →
  sync_nodes order_state st = Done tt st [LogLastNodeNotFound].
Proof.
  intros Hrep Hcur Hadv Hnew Hold.
  assert (list_find (λ ns, ns_sequenceId ns = lastNodeSequenceId st)
            (nodeStates st) = None) as Hfind.
  { apply list_find_None, Forall_forall. intros ns Hns Hseq.
    apply Hold, list_elem_of_fmap. by exists ns. }
  unfold sync_nodes, bind, get. rewrite Hfind. clear Hfind.
  destruct (nodeStates order_state) as [|r rl]; [done |].
  destruct (nodeStates st) as [|h tl]; [done |].
  assert (ns_sequenceId h ≠ lastNodeSequenceId order_state) as Hhead.
  { intros Hh. apply Hnew. rewrite <- Hh. simpl. left. }
  case_decide as Hlast; run.
  - by case_decide.
  - rewrite bool_decide_true by (destruct Hadv; simpl in *; congruence).
    by case_decide.
Qed.


Lemma bind_get {S B} (k : S → M S B) (s : S) : bind get k s = k s s.
Proof. unfold bind, get. by destruct (k s s). Qed.

Lemma bind_same_start {S A B} (m m' : M S A) (k : A → M S B) (s : S) :
  m s = m' s → bind m k s = bind m' k s.
Proof. unfold bind. by intros ->. Qed.

(** The node block when the head of [nodeStates] is the reported last
    node: the head goes and the reported last node is taken over. *)
Lemma sync_nodes_head_reached st order_state (h : NodeState) tl :
  nodeStates order_state ≠ [] →
  nodeStates st = h :: tl →
  ns_sequenceId h = lastNodeSequenceId order_state →
  (lastNodeSequenceId order_state ≠ lastNodeSequenceId st
   ∨ ns_sequenceId <$> head (nodeStates st)
     ≠ ns_sequenceId <$> head (nodeStates order_state)) →
  sync_nodes order_state st
  = Done tt (set_lastNodeSequenceId (lastNodeSequenceId order_state)
       (set_lastNodeId (lastNodeId order_state) (set_nodeStates tl st))) [].
Proof.
  intros Hrep Hst Hhead Hadv. unfold sync_nodes, bind, get.
  rewrite Hst in *.
  destruct (nodeStates order_state) as [|r rl]; [done |].
  case_decide as Hlast; run.
  - by case_decide.
  - rewrite bool_decide_true by (destruct Hadv; simpl in *; congruence).
    by case_decide.
Qed.

(** C3, as the code has it: when the order id matches, node progress has
    advanced, and neither the reported nor the current last sequence id
    is carried by a node state, the node block alone is skipped: the
    error line is printed and [nodeStates], [lastNodeId] and
    [lastNodeSequenceId] stay; the call then goes on with the edge block
    and the action loop, which may write [edgeStates] and
    [actionStates] and nothing else. *)
Theorem C3_lost_boundary_skips_node_block_only st order_state :
  orderId order_state = orderId st →
  nodeStates order_state ≠ [] →
  nodeStates st ≠ [] →
  (lastNodeSequenceId order_state ≠ lastNodeSequenceId st
   ∨ ns_sequenceId <$> head (nodeStates st)
     ≠ ns_sequenceId <$> head (nodeStates order_state)) →
  lastNodeSequenceId order_state ∉ ns_sequenceId <$> nodeStates st →
  lastNodeSequenceId st ∉ ns_sequenceId <$> nodeStates st →
  SetOrderState order_state st
  = (ros_error LogLastNodeNotFound ;;
     sync_edges order_state ;;
     sync_actions order_state) st
  ∧ ∃ st' log,
      SetOrderState order_state st = Done tt st' (LogLastNodeNotFound :: log)
      ∧ nodeStates st' = nodeStates st
      ∧ lastNodeId st' = lastNodeId st
      ∧ lastNodeSequenceId st' = lastNodeSequenceId st
      ∧ st' = set_edgeStates (edgeStates st') (set_actionStates (actionStates st') st).
Proof.
  intros Hid Hrep Hcur Hadv Hnew Hold.
  pose proof (sync_nodes_not_found st order_state Hrep Hcur Hadv Hnew Hold)
    as Hnodes.
  assert (SetOrderState order_state st
          = (ros_error LogLastNodeNotFound ;;
             sync_edges order_state ;;
             sync_actions order_state) st) as Hrun.
  { unfold SetOrderState. rewrite bind_get.
    case_decide; [congruence |].
    apply bind_same_start. by rewrite Hnodes. }
  split; [done |].
  rewrite Hrun. unfold bind at 1, ros_error. unfold bind at 1.
  destruct (sync_edges_frame st order_state) as (es & log1 & ->).
  destruct (sync_actions_frame (set_edgeStates es st) order_state)
    as (acts & log2 & ->).
  by exists (set_actionStates acts (set_edgeStates es st)), (log1 ++ log2).
Qed.


(** ** Order updates on the state *)

Lemma ValidateUpdateBase_accepts st (order_update : @Order NodePosition) first rest :
  nodes order_update = first :: rest →
  nodeId first = lastNodeId st →
  sequenceId first = lastNodeSequenceId st →
  ValidateUpdateBase order_update st = Done tt st [].
Proof.
  intros Hnodes Hid Hseq. unfold ValidateUpdateBase. rewrite bind_get, Hnodes.
  by rewrite decide_True.
Qed.

(** C1: an update whose first node is not the current last node, in
    [nodeId] or in [sequenceId], is rejected as a whole by
    [ValidateUpdateBase]; nothing of it is merged and the state after the
    rejection is the state before the call. *)
Theorem C1_ValidateUpdateBase_rejects_mismatch st
    (current_order order_update : @Order NodePosition) :
  (∀ first, head (nodes order_update) = Some first →
     nodeId first ≠ lastNodeId st ∨ sequenceId first ≠ lastNodeSequenceId st) →
  ValidateUpdateBase order_update st = Raised ContinuityError st []
  ∧ ValidatedUpdate current_order order_update st
    = Raised ContinuityError st [].
Proof.
  intros Hmismatch.
  assert (ValidateUpdateBase order_update st = Raised ContinuityError st [])
    as Hcheck.
  { unfold ValidateUpdateBase. rewrite bind_get.
    destruct (nodes order_update) as [|first rest]; [done |].
    rewrite decide_False; [done |].
    intros [Hid Hseq]. by destruct (Hmismatch first eq_refl). }
  split; [done |].
  unfold ValidatedUpdate, bind. by rewrite Hcheck.
Qed.


(** The merge always returns; the three lists it leaves. *)
Lemma State_UpdateOrder_run st (current_order order_update : @Order NodePosition) :
  let base_n := filter (λ ns, ns_released ns = true) (nodeStates st) in
  let base_e := filter (λ es, es_released es = true) (edgeStates st) in
  let base_a := filter (λ a, as_actionId a ∉ horizon_action_ids current_order)
                  (actionStates st) in
  ∃ st',
    State_UpdateOrder current_order order_update st = Done tt st' []
    ∧ nodeStates st'
      = base_n ++ (NodeToNodeState <$>
          filter (λ n, Forall (λ ns, (ns_sequenceId ns < sequenceId n)%N) base_n)
            (nodes order_update))
    ∧ edgeStates st'
      = base_e ++ (EdgeToEdgeState <$>
          filter (λ e, Forall (λ es, (es_sequenceId es < e_sequenceId e)%N) base_e)
            (edges order_update))
    ∧ actionStates st'
      = base_a ++ (ActionToActionState <$>
          filter (λ a, actionId a ∉ as_actionId <$> base_a)
            (order_actions order_update))
    ∧ orderUpdateId st' = o_orderUpdateId order_update.
Proof. intros. eexists. split_and!; reflexivity. Qed.

(** C2: for every order update, [State::UpdateOrder] returns a state in
    which every released node and edge state is still there, in place at
    the front; every unreleased node, edge and action state that the
    update does not name is gone; and right behind the kept entries
    stand the fresh entries derived from the new nodes, edges and
    actions of the update, one for each of them and in their order.  An
    action state counts as unreleased when its action hangs on an
    unreleased node or edge of the current order; new are the nodes and
    edges of the update beyond the kept ones and its actions that no
    kept action state carries. *)
Theorem C2_State_UpdateOrder_keeps_base_replaces_horizon st
    (current_order order_update : @Order NodePosition) :
  let base_nodes := filter (λ ns, ns_released ns = true) (nodeStates st) in
  let base_edges := filter (λ es, es_released es = true) (edgeStates st) in
  let base_actions :=
    filter (λ a, as_actionId a ∉ horizon_action_ids current_order)
      (actionStates st) in
  ∃ st' fresh_nodes fresh_edges fresh_actions,
    State_UpdateOrder current_order order_update st = Done tt st' []
    ∧ (nodeStates st' = base_nodes ++ fresh_nodes
       ∧ fresh_nodes
         = NodeToNodeState <$>
             filter (λ n, Forall (λ ns, (ns_sequenceId ns < sequenceId n)%N)
                            base_nodes)
               (nodes order_update))
    ∧ (edgeStates st' = base_edges ++ fresh_edges
       ∧ fresh_edges
         = EdgeToEdgeState <$>
             filter (λ e, Forall (λ es, (es_sequenceId es < e_sequenceId e)%N)
                            base_edges)
               (edges order_update))
    ∧ (actionStates st' = base_actions ++ fresh_actions
       ∧ fresh_actions
         = ActionToActionState <$>
             filter (λ a, actionId a ∉ as_actionId <$> base_actions)
               (order_actions order_update))
    ∧ (∀ ns, ns ∈ nodeStates st → ns_released ns = true → ns ∈ nodeStates st')
    ∧ (∀ es, es ∈ edgeStates st → es_released es = true → es ∈ edgeStates st')
    ∧ (∀ ns, ns ∈ nodeStates st → ns_released ns = false →
         ns_sequenceId ns ∉ sequenceId <$> nodes order_update →
         ns ∉ nodeStates st')
    ∧ (∀ es, es ∈ edgeStates st → es_released es = false →
         es_sequenceId es ∉ e_sequenceId <$> edges order_update →
         es ∉ edgeStates st')
    ∧ (∀ a, a ∈ actionStates st →
         as_actionId a ∈ horizon_action_ids current_order →
         as_actionId a ∉ actionId <$> order_actions order_update →
         a ∉ actionStates st')
    ∧ (∀ n, n ∈ nodes order_update →
         (∀ ns, ns ∈ nodeStates st → ns_released ns = true →
            (ns_sequenceId ns < sequenceId n)%N) →
         NodeToNodeState n ∈ nodeStates st')
    ∧ (∀ e, e ∈ edges order_update →
         (∀ es, es ∈ edgeStates st → es_released es = true →
            (es_sequenceId es < e_sequenceId e)%N) →
         EdgeToEdgeState e ∈ edgeStates st')
    ∧ (∀ a, a ∈ order_actions order_update →
         (∀ x, x ∈ actionStates st →
            as_actionId x ∉ horizon_action_ids current_order →
            as_actionId x ≠ actionId a) →
         ActionToActionState a ∈ actionStates st').
Proof.
  intros base_nodes base_edges base_actions.
  destruct (State_UpdateOrder_run st current_order order_update)
    as (st' & Hrun & Hn & He & Ha & _).
  fold base_nodes in Hn. fold base_edges in He. fold base_actions in Ha.
  eexists st', _, _, _. split; [exact Hrun |].
  split_and!.
  - exact Hn.
  - reflexivity.
  - exact He.
  - reflexivity.
  - exact Ha.
  - reflexivity.
  - intros ns Hin Hrel. rewrite Hn. apply elem_of_app. left.
    by apply list_elem_of_filter.
  - intros es Hin Hrel. rewrite He. apply elem_of_app. left.
    by apply list_elem_of_filter.
  - intros ns Hin Hrel Habsent. rewrite Hn.
    intros [[Hbase _]%list_elem_of_filter | Hfresh]%elem_of_app; [congruence |].
    apply list_elem_of_fmap in Hfresh as (n & -> & [_ Hn']%list_elem_of_filter).
    apply Habsent. simpl. by apply list_elem_of_fmap_2.
  - intros es Hin Hrel Habsent. rewrite He.
    intros [[Hbase _]%list_elem_of_filter | Hfresh]%elem_of_app; [congruence |].
    apply list_elem_of_fmap in Hfresh as (e & -> & [_ He']%list_elem_of_filter).
    apply Habsent. simpl. by apply list_elem_of_fmap_2.
  - intros a Hin Hhor Habsent. rewrite Ha.
    intros [[Hbase _]%list_elem_of_filter | Hfresh]%elem_of_app; [done |].
    apply list_elem_of_fmap in Hfresh as (x & -> & [_ Hx]%list_elem_of_filter).
    apply Habsent. simpl. by apply list_elem_of_fmap_2.
  - intros n Hin Hbeyond. rewrite Hn. apply elem_of_app. right.
    apply list_elem_of_fmap_2, list_elem_of_filter. split; [| done].
    apply Forall_forall. intros ns [Hrel Hns]%list_elem_of_filter.
    by apply Hbeyond.
  - intros e Hin Hbeyond. rewrite He. apply elem_of_app. right.
    apply list_elem_of_fmap_2, list_elem_of_filter. split; [| done].
    apply Forall_forall. intros es [Hrel Hes]%list_elem_of_filter.
    by apply Hbeyond.
  - intros a Hin Hnew. rewrite Ha. apply elem_of_app. right.
    apply list_elem_of_fmap_2, list_elem_of_filter. split; [| done].
    intros (x & Hid & [Hkept Hx]%list_elem_of_filter)%list_elem_of_fmap.
    by apply (Hnew x).
Qed.

(** ** The error ledger *)

Lemma cleared_type_is_gone (t : string) (l : list Error) :
  filter (λ e, errorType e = t) (filter (λ e, errorType e ≠ t) l) = [].
Proof.
  induction l as [|e l IH]; [done |].
  rewrite (filter_cons (λ e, errorType e ≠ t)). case_decide; [| done].
  by rewrite filter_cons_False.
Qed.

Lemma clearing_twice (t : string) (l : list Error) :
  filter (λ e, errorType e ≠ t) (filter (λ e, errorType e ≠ t) l)
  = filter (λ e, errorType e ≠ t) l.
Proof.
  induction l as [|e l IH]; [done |].
  rewrite (filter_cons (λ e, errorType e ≠ t)). case_decide; [| done].
  rewrite filter_cons_True by done. by rewrite IH.
Qed.

(** C8: after two [AppendError] calls with the same error type, whatever
    the error list was, exactly one entry of that type is left, the one
    of the second call with its description; the entries of other types
    are as before and no other field has moved. *)
Theorem C8_AppendError_twice_keeps_latest st (first second : Error) :
  errorType first = errorType second →
  ∃ st',
    (AppendError first ;; AppendError second) st = Done tt st' []
    ∧ filter (λ e, errorType e = errorType second) (errors st') = [second]
    ∧ filter (λ e, errorType e ≠ errorType second) (errors st')
      = filter (λ e, errorType e ≠ errorType second) (errors st)
    ∧ st' = set_errors (errors st') st.
Proof.
  intros Htype. eexists. split; [reflexivity |]. simpl. rewrite Htype.
  set (t := errorType second).
  assert (filter (λ e, errorType e ≠ t)
            (filter (λ e, errorType e ≠ t) (errors st) ++ [first])
          = filter (λ e, errorType e ≠ t) (errors st)) as Hcleared.
  { rewrite filter_app, clearing_twice.
    rewrite (filter_singleton_False _ first []) by (intros H; by apply H).
    apply app_nil_r. }
  rewrite Hcleared. split_and!; [| | done].
  - rewrite filter_app, cleared_type_is_gone. by rewrite (filter_singleton_True _ second []).
  - rewrite filter_app, clearing_twice.
    rewrite (filter_singleton_False _ second []) by (intros H; by apply H).
    apply app_nil_r.
Qed.


(** ** Order updates on the order *)


End Properties.

(** ** The theorems at work on the sample order *)

Ltac in_list := apply (bool_decide_unpack _); vm_compute; exact I.


Lemma C3_lost_boundary_skips_node_block_only_witness :
  ∃ st' log,
    SetOrderState stray_report at_n0 = Done tt st' (LogLastNodeNotFound :: log)
    ∧ nodeStates st' = [n2; n4; n6]
    ∧ lastNodeId st' = "n0"
    ∧ lastNodeSequenceId st' = 0.
Proof.
  destruct (proj2 (C3_lost_boundary_skips_node_block_only at_n0 stray_report
      ltac:(reflexivity) ltac:(vm_compute; discriminate)
      ltac:(vm_compute; discriminate)
      ltac:(left; vm_compute; discriminate)
      ltac:(in_list) ltac:(in_list)))
    as (st' & log & Hrun & Hn & Hl & Hs & _).
  exists st', log. by rewrite Hn, Hl, Hs.
Defined.

(** C3 as the spec words it does not hold: the call is not aborted.  On
    the sample order a report whose last node is unknown leaves the node
    states and the last node alone, but still trims [e1] and marks [a1]
    finished. *)
Lemma C3_lost_boundary_state_not_intact :
  ¬ ∀ st order_state : @StateMsg unit unit unit unit,
      orderId order_state = orderId st →
      nodeStates order_state ≠ [] →
      (lastNodeSequenceId order_state ≠ lastNodeSequenceId st
       ∨ ns_sequenceId <$> head (nodeStates st)
         ≠ ns_sequenceId <$> head (nodeStates order_state)) →
      lastNodeSequenceId order_state ∉ ns_sequenceId <$> nodeStates st →
      ∃ st' log,
        SetOrderState order_state st = Done tt st' log
        ∧ nodeStates st' = nodeStates st
        ∧ lastNodeId st' = lastNodeId st
        ∧ lastNodeSequenceId st' = lastNodeSequenceId st
        ∧ edgeStates st' = edgeStates st
        ∧ actionStates st' = actionStates st.
Proof.
  intros Hclaim.
  destruct (Hclaim at_n0 stray_report) as (st' & log & Hrun & _ & _ & _ & He & _).
  - reflexivity.
  - vm_compute. discriminate.
  - left. vm_compute. discriminate.
  - in_list.
  - vm_compute in Hrun. injection Hrun as <- _. vm_compute in He. discriminate.
Qed.

Example stray_report_run :
  SetOrderState stray_report at_n0
  = Done tt
      (set_actionStates [mkActionState "a1" "pick" "FINISHED" "done"; drop_off]
         (set_edgeStates [e3; e5] at_n0))
      [LogLastNodeNotFound].
Proof. reflexivity. Qed.

(** C4 at work: the report says [n2] and [n4] were passed.  The head [n2]
    is not the reported last node, so the search runs, for the current
    last sequence id 0 instead of the reported 4: nothing is removed and
    the last node stays [n0]. *)
Lemma C4_skipped_report_leaves_nodes :
  ∃ st',
    SetOrderState passed_n4 at_n0 = Done tt st' [LogLastNodeNotFound]
    ∧ nodeStates st' = [n2; n4; n6]
    ∧ lastNodeId st' = "n0"
    ∧ lastNodeSequenceId st' = 0.
Proof. eexists. split_and!; reflexivity. Qed.

Lemma C1_ValidateUpdateBase_rejects_mismatch_witness :
  ValidatedUpdate order_O1 update_from_n2 planned
  = Raised ContinuityError planned [].
Proof.
  apply (C1_ValidateUpdateBase_rejects_mismatch planned order_O1 update_from_n2).
  intros first Hfirst. injection Hfirst as <-. left. vm_compute. discriminate.
Defined.

Ltac member :=
  apply list_elem_of_In; vm_compute; repeat ((left; reflexivity) || right).

Ltac each_in_list H :=
  repeat (apply elem_of_cons in H as [-> | H]); [.. | by inversion H].

Lemma C2_State_UpdateOrder_keeps_base_replaces_horizon_witness :
  ∃ st',
    State_UpdateOrder order_O1 update_1 planned = Done tt st' []
    ∧ nodeStates st' = [n2; n4; mkNodeState "n6" 6 true]
    ∧ edgeStates st' = [e1; e3; mkEdgeState "e5" 5 true]
    ∧ actionStates st' = [pick; drop_off]
    ∧ n2 ∈ nodeStates st' ∧ e3 ∈ edgeStates st'
    ∧ (n8 ∉ nodeStates st') ∧ (e7 ∉ edgeStates st')
    ∧ (weigh ∉ actionStates st')
    ∧ mkNodeState "n6" 6 true ∈ nodeStates st'
    ∧ mkEdgeState "e5" 5 true ∈ edgeStates st'
    ∧ drop_off ∈ actionStates st'.
Proof.
  destruct (C2_State_UpdateOrder_keeps_base_replaces_horizon planned
              order_O1 update_1)
    as (st' & fresh_n & fresh_e & fresh_a & Hrun & [Hn ->] & [He ->] & [Ha ->]
        & Hkeep_n & Hkeep_e & Hdrop_n & Hdrop_e & Hdrop_a
        & Hnew_n & Hnew_e & Hnew_a).
  exists st'. split_and!.
  - exact Hrun.
  - rewrite Hn. reflexivity.
  - rewrite He. reflexivity.
  - rewrite Ha. reflexivity.
  - apply Hkeep_n; [in_list | reflexivity].
  - apply Hkeep_e; [in_list | reflexivity].
  - apply Hdrop_n; [in_list | reflexivity | in_list].
  - apply Hdrop_e; [in_list | reflexivity | in_list].
  - apply Hdrop_a; in_list.
  - apply (Hnew_n (node "n6" 6 true [mkAction "a2" "drop"])); [member |].
    intros ns Hin Hrel. each_in_list Hin; done.
  - apply (Hnew_e (mkEdge "e5" 5 true "n4" "n6" [])); [member |].
    intros es Hin Hrel. each_in_list Hin; done.
  - apply (Hnew_a (mkAction "a2" "drop")); [member |].
    intros x Hin Hkept. each_in_list Hin; [done | | ].
    + exfalso. apply Hkept. in_list.
    + done.
Defined.

Example scenario_update_accepted :
  ∃ st',
    ValidatedUpdate scenario_order scenario_update scenario_state
      = Done tt st' []
    ∧ nodeStates st' = [mkNodeState "n1" 2 true; mkNodeState "n2" 4 false]
    ∧ edgeStates st' = [mkEdgeState "e1" 3 false].
Proof. eexists. split_and!; reflexivity. Qed.

Example scenario_late_update_rejected :
  ValidatedUpdate scenario_order scenario_late_update scenario_state
  = Raised ContinuityError scenario_state [].
Proof. reflexivity. Qed.

Example update_1_on_planned :
  ∃ st',
    ValidatedUpdate order_O1 update_1 planned = Done tt st' []
    ∧ nodeStates st' = [n2; n4; mkNodeState "n6" 6 true]
    ∧ edgeStates st' = [e1; e3; mkEdgeState "e5" 5 true]
    ∧ actionStates st' = [pick; drop_off]
    ∧ orderUpdateId st' = 1.
Proof. eexists. split_and!; reflexivity. Qed.

Lemma C5_SetOrderState_foreign_order_rejected_witness :
  SetOrderState foreign_report at_n0
  = Done tt at_n0 [LogOrderIdMismatch "O2" "O1"].
Proof.
  apply (C5_SetOrderState_foreign_order_rejected at_n0 foreign_report).
  vm_compute. discriminate.
Defined.

Example extension_applies :
  Order_UpdateOrder extension order_O1 = Done tt order_O1_extended [].
Proof. reflexivity. Qed.



Example restart_replaces_the_order :
  ReceiveOrder restart_O1 order_O1_extended = Done tt restart_O1 [].
Proof. reflexivity. Qed.

Lemma C8_AppendError_twice_keeps_latest_witness :
  ∃ st',
    (AppendError overheated ;; AppendError overheated_again)
      (set_errors [overheated; blocked; overheated] planned) = Done tt st' []
    ∧ filter (λ e, errorType e = "overheat") (errors st') = [overheated_again].
Proof.
  destruct (C8_AppendError_twice_keeps_latest
              (set_errors [overheated; blocked; overheated] planned)
              overheated overheated_again ltac:(reflexivity))
    as (st' & Hrun & Hone & _).
  by exists st'.
Defined.

Example errors_after_two_appends :
  ∃ st',
    (AppendError overheated ;; AppendError overheated_again)
      (set_errors [overheated; blocked; overheated] planned) = Done tt st' []
    ∧ errors st' = [blocked; overheated_again].
Proof. eexists. split; reflexivity. Qed.

(** ** More on the inline member functions *)

Section Synchronisation.

Context {Velocity SafetyState Load Info : Type}.
Implicit Types st order_state : @StateMsg Velocity SafetyState Load Info.

(** *** One [SetActionState] *)

Lemma first_with_id_ids (action_id : string) (it : nat) (l : list ActionState) :
  first_with_id action_id it l
  ↔ (as_actionId <$> l) !! it = Some action_id
    ∧ ∀ j, (j < it)%nat → (as_actionId <$> l) !! j ≠ Some action_id.
Proof.
  unfold first_with_id. setoid_rewrite list_lookup_fmap. split.
  - intros [(a & Ha & Hid) Hleast]. split; [by rewrite Ha, <- Hid |].
    intros j Hj. destruct (l !! j) as [b|] eqn:Hb; [| done].
    intros [= Hbid]. by apply (Hleast j b).
  - intros [Hit Hleast]. destruct (l !! it) as [a|] eqn:Ha; [| done].
    injection Hit as Hid. split; [by exists a |].
    intros j b Hb Hj Hbid. apply (Hleast j Hj). by rewrite Hb, <- Hbid.
Qed.

Lemma first_with_id_find (action_id : string) (it : nat) (l : list ActionState) :
  first_with_id action_id it l
  ↔ ∃ a, list_find (λ a, action_id = as_actionId a) l = Some (it, a).
Proof.
  unfold first_with_id. split.
  - intros [(a & Ha & Hid) Hleast]. exists a. apply list_find_Some.
    split_and!; [done.. |]. intros j b Hb Hj Hbid. by apply (Hleast j b).
  - intros (a & (Ha & Hid & Hleast)%list_find_Some).
    split; [by exists a |]. intros j b Hb Hj Hbid. by apply (Hleast j b).
Qed.

Lemma alter_write_keeps {B} (g : ActionState → B) status descr it
    (l : list ActionState) :
  (∀ a, g (write_action status descr a) = g a) →
  g <$> alter (write_action status descr) it l = g <$> l.
Proof.
  intros Hg. apply list_eq. intros j. rewrite !list_lookup_fmap.
  destruct (decide (j = it)) as [->|Hne].
  - rewrite list_lookup_alter_eq. destruct (l !! it); simpl; [by rewrite Hg | done].
  - by rewrite list_lookup_alter_ne.
Qed.

Lemma SetActionState_step st (u : ActionState) :
  ∃ acts log,
    SetActionState u st = Done tt (set_actionStates acts st) log
    ∧ as_actionId <$> acts = as_actionId <$> actionStates st
    ∧ as_actionType <$> acts = as_actionType <$> actionStates st
    ∧ (∀ j a, actionStates st !! j = Some a →
         as_actionId a ≠ as_actionId u → acts !! j = Some a)
    ∧ (∀ j a, first_with_id (as_actionId u) j (actionStates st) →
         actionStates st !! j = Some a →
         acts !! j = Some (write_action (as_actionStatus u)
                             (as_resultDescription u) a))
    ∧ (∀ line, line ∈ log
         ↔ line = LogActionNotFound (as_actionId u)
           ∧ as_actionId u ∉ as_actionId <$> actionStates st).
Proof.
  destruct (list_find (λ a, as_actionId u = as_actionId a) (actionStates st))
    as [[it b]|] eqn:Hfind.
  - eexists _, []. split; [by eapply SetActionState_found |].
    pose proof Hfind as (Hit & Hb & Hleast)%list_find_Some.
    split_and!.
    + by apply alter_write_keeps.
    + by apply alter_write_keeps.
    + intros j a Hj Hne. rewrite list_lookup_alter_ne; [done |].
      intros ->. rewrite Hit in Hj. by injection Hj as ->.
    + intros j a (a' & Hfind')%first_with_id_find Hj.
      rewrite Hfind in Hfind'. injection Hfind' as -> ->.
      by rewrite list_lookup_alter_eq, Hj.
    + intros line. split; [by inversion 1 |]. intros [_ Hnot].
      exfalso. apply Hnot, list_elem_of_fmap. exists b.
      split; [done |]. by eapply list_elem_of_lookup_2.
  - exists (actionStates st), [LogActionNotFound (as_actionId u)].
    rewrite set_actionStates_same.
    split; [by apply SetActionState_missing |].
    pose proof Hfind as Hnone%list_find_None.
    assert (as_actionId u ∉ as_actionId <$> actionStates st) as Hnot.
    { intros (a & Hid & Ha)%list_elem_of_fmap.
      by apply (proj1 (Forall_forall _ _) Hnone a Ha). }
    split_and!; [done.. | |].
    + intros j a (a' & Hfind')%first_with_id_find. by rewrite Hfind in Hfind'.
    + intros line. rewrite list_elem_of_singleton.
      split; [by intros -> | by intros [-> _]].
Qed.

(** *** The loop over the reported action states *)

Lemma merge_actions (l : list ActionState) st :
  ∃ acts log,
    for_each l SetActionState st = Done tt (set_actionStates acts st) log
    ∧ as_actionId <$> acts = as_actionId <$> actionStates st
    ∧ as_actionType <$> acts = as_actionType <$> actionStates st
    ∧ (∀ j a, actionStates st !! j = Some a →
         as_actionId a ∉ as_actionId <$> l → acts !! j = Some a)
    ∧ (∀ line, line ∈ log
         ↔ ∃ id, line = LogActionNotFound id
                 ∧ id ∈ as_actionId <$> l
                 ∧ id ∉ as_actionId <$> actionStates st)
    ∧ (NoDup (as_actionId <$> l) →
       ∀ u j a, u ∈ l →
         first_with_id (as_actionId u) j (actionStates st) →
         actionStates st !! j = Some a →
         acts !! j = Some (write_action (as_actionStatus u)
                             (as_resultDescription u) a)).
Proof.
  revert st. induction l as [|u l IH]; intros st.
  - exists (actionStates st), []. rewrite set_actionStates_same.
    split_and!; [done.. | | ].
    + intros line. split; [by inversion 1 |].
      intros (id & _ & Hin & _). by inversion Hin.
    + intros _ u j a Hin. by inversion Hin.
  - destruct (SetActionState_step st u)
      as (acts1 & log1 & Hrun1 & Hids1 & Htypes1 & Hkeep1 & Hwrite1 & Hlog1).
    destruct (IH (set_actionStates acts1 st))
      as (acts2 & log2 & Hrun2 & Hids2 & Htypes2 & Hkeep2 & Hlog2 & Hwrite2).
    simpl in Hids2, Htypes2, Hkeep2, Hlog2, Hwrite2.
    exists acts2, (log1 ++ log2). split_and!.
    + simpl. unfold bind at 1. by rewrite Hrun1, Hrun2.
    + by rewrite Hids2.
    + by rewrite Htypes2.
    + intros j a Hj Hnot. rewrite fmap_cons, not_elem_of_cons in Hnot.
      destruct Hnot as [Hne Hnot]. apply Hkeep2; [| done]. by apply Hkeep1.
    + intros line. rewrite elem_of_app, Hlog1, Hlog2, Hids1, fmap_cons. split.
      * intros [[-> Hnot] | (id & -> & Hin & Hnot)].
        -- exists (as_actionId u). split_and!; [done | by left | done].
        -- exists id. split_and!; [done | by right | done].
      * intros (id & -> & [-> | Hin]%elem_of_cons & Hnot).
        -- by left.
        -- right. by exists id.
    + rewrite fmap_cons, NoDup_cons. intros [Hfresh Hnodup] r j a Hr Hfirst Hj.
      apply elem_of_cons in Hr as [-> | Hr].
      * apply Hkeep2; [by apply Hwrite1 |].
        pose proof Hfirst as [(a' & Ha' & Hid) _]. simplify_eq.
        simpl. by rewrite Hid.
      * assert (as_actionId r ≠ as_actionId u) as Hne.
        { intros Heq. apply Hfresh. rewrite <- Heq. by apply list_elem_of_fmap_2. }
        pose proof Hfirst as [(a' & Ha' & Hid) _]. simplify_eq.
        apply (Hwrite2 Hnodup r j a Hr).
        -- apply first_with_id_ids. rewrite Hids1. by apply first_with_id_ids.
        -- apply Hkeep1; [done | congruence].
Qed.

(** *** The node block and the edge block *)

Ltac effects :=
  unfold bind, get, modify, ret, ros_error, raise, front, undefined; simpl.

Lemma nodes_set_same st :
  nodes_set 0 (lastNodeId st) (lastNodeSequenceId st) st = st.
Proof. by destruct st. Qed.

Lemma sync_nodes_undefined st order_state :
  nodeStates order_state ≠ [] → nodeStates st = [] →
  sync_nodes order_state st = Undefined.
Proof.
  intros Hrep Hst. unfold sync_nodes, bind, get. rewrite Hst.
  destruct (nodeStates order_state) as [|r rl]; [done |].
  by case_decide.
Qed.

Lemma sync_nodes_cleared st order_state :
  nodeStates order_state = [] →
  sync_nodes order_state st
  = Done tt (nodes_set (length (nodeStates st)) (lastNodeId order_state)
               (lastNodeSequenceId order_state) st) [].
Proof.
  intros Hrep. unfold sync_nodes, bind, get. rewrite Hrep. effects.
  unfold nodes_set. by rewrite drop_all.
Qed.

Lemma sync_nodes_in_step st order_state :
  nodeStates order_state ≠ [] → nodeStates st ≠ [] →
  lastNodeSequenceId order_state = lastNodeSequenceId st →
  ns_sequenceId <$> head (nodeStates st)
    = ns_sequenceId <$> head (nodeStates order_state) →
  sync_nodes order_state st = Done tt st [].
Proof.
  intros Hrep Hst Hlast Hhead. unfold sync_nodes, bind, get.
  destruct (nodeStates order_state) as [|r rl]; [done |].
  destruct (nodeStates st) as [|h tl]; [done |].
  rewrite decide_False by (intros Hne; by apply Hne). effects.
  injection Hhead as Hhead.
  by rewrite bool_decide_false by (intros Hne; by apply Hne).
Qed.

Lemma sync_nodes_result st order_state :
  nodeStates order_state = [] ∨ nodeStates st ≠ [] →
  ∃ k last_id last_seq log,
    sync_nodes order_state st = Done tt (nodes_set k last_id last_seq st) log
    ∧ (log = [] ∨ log = [LogLastNodeNotFound]).
Proof.
  intros Hdef.
  destruct (nodeStates order_state) as [|r rl] eqn:Hrep.
  { eexists _, _, _, []. split; [by apply sync_nodes_cleared | by left]. }
  destruct Hdef as [? | Hst]; [done |].
  unfold sync_nodes, bind, get. rewrite Hrep.
  destruct (list_find (λ ns, ns_sequenceId ns = lastNodeSequenceId st)
              (nodeStates st)) as [[it x]|].
  all: destruct (nodeStates st) as [|h tl] eqn:Hnodes; [done |].
  all: case_decide as Hlast; effects.
  all: try destruct (bool_decide (ns_sequenceId h ≠ ns_sequenceId r)).
  all: try case_decide.
  all: try (exists 1%nat, (lastNodeId order_state),
              (lastNodeSequenceId order_state), []; split; [| by left];
            unfold nodes_set; by rewrite Hnodes).
  all: try (exists it, (lastNodeId order_state),
              (lastNodeSequenceId order_state), []; split; [| by left];
            unfold nodes_set; by rewrite Hnodes).
  all: try (exists 0%nat, (lastNodeId st), (lastNodeSequenceId st), [];
            split; [| by left]; by rewrite nodes_set_same).
  all: exists 0%nat, (lastNodeId st), (lastNodeSequenceId st),
         [LogLastNodeNotFound]; split; [| by right]; by rewrite nodes_set_same.
Qed.

Lemma sync_edges_cleared st order_state :
  edgeStates order_state = [] →
  sync_edges order_state st = Done tt (set_edgeStates [] st) [].
Proof.
  intros Hrep. unfold sync_edges, bind, get. rewrite Hrep.
  destruct (edgeStates st) as [|h tl] eqn:Hst; [| done].
  effects. by rewrite <- Hst, set_edgeStates_same.
Qed.

Lemma sync_edges_aligned st order_state (r : EdgeState) rl it e :
  edgeStates order_state = r :: rl →
  list_find (λ es, es_sequenceId es = es_sequenceId r) (edgeStates st)
    = Some (it, e) →
  sync_edges order_state st
  = Done tt (set_edgeStates (drop it (edgeStates st)) st) [].
Proof.
  intros Hrep Hfind. unfold sync_edges, bind, get. rewrite Hrep, Hfind.
  apply list_find_Some in Hfind as (Hit & Hseq & Hleast).
  destruct (edgeStates st) as [|h tl] eqn:Hst; [done |].
  case_decide as Hhead; [done |].
  assert (it = 0%nat) as ->.
  { destruct it as [|it]; [done |]. exfalso.
    apply (Hleast 0%nat h); [done | lia | done]. }
  effects. by rewrite <- Hst, set_edgeStates_same.
Qed.

Lemma sync_edges_lost st order_state (r : EdgeState) rl :
  edgeStates st ≠ [] →
  edgeStates order_state = r :: rl →
  list_find (λ es, es_sequenceId es = es_sequenceId r) (edgeStates st) = None →
  sync_edges order_state st = Done tt st [LogLastEdgeNotFound].
Proof.
  intros Hst Hrep Hfind. unfold sync_edges, bind, get. rewrite Hrep, Hfind.
  apply list_find_None in Hfind.
  destruct (edgeStates st) as [|h tl]; [done |].
  case_decide as Hhead; [done |]. exfalso.
  apply Forall_cons in Hfind as [Hh _]. by apply Hh.
Qed.

Lemma sync_edges_result st order_state :
  ∃ k log,
    sync_edges order_state st
      = Done tt (set_edgeStates (drop k (edgeStates st)) st) log
    ∧ (log = [] ∨ log = [LogLastEdgeNotFound]).
Proof.
  destruct (edgeStates order_state) as [|r rl] eqn:Hrep.
  { exists (length (edgeStates st)), []. rewrite drop_all.
    split; [by apply sync_edges_cleared | by left]. }
  destruct (list_find (λ es, es_sequenceId es = es_sequenceId r) (edgeStates st))
    as [[it e]|] eqn:Hfind.
  { exists it, []. split; [by eapply sync_edges_aligned | by left]. }
  destruct (edgeStates st) as [|h tl] eqn:Hst.
  - exists 0%nat, []. split; [| by left].
    unfold sync_edges, bind, get. rewrite Hst. effects.
    by rewrite <- Hst, set_edgeStates_same.
  - exists 0%nat, [LogLastEdgeNotFound]. split; [| by right].
    rewrite drop_0, <- Hst, set_edgeStates_same.
    eapply sync_edges_lost; [by rewrite Hst | done | by rewrite Hst].
Qed.

(** *** [SetOrderState] as a whole *)

Lemma SetOrderState_matching st order_state :
  orderId st = orderId order_state →
  SetOrderState order_state st
  = (sync_nodes order_state ;; sync_edges order_state ;;
     sync_actions order_state) st.
Proof.
  intros Hid. unfold SetOrderState. rewrite bind_get.
  by rewrite decide_False by (intros Hne; by apply Hne).
Qed.

Lemma SetOrderState_compose st order_state st1 l1 st2 l2 st3 l3 :
  orderId st = orderId order_state →
  sync_nodes order_state st = Done tt st1 l1 →
  sync_edges order_state st1 = Done tt st2 l2 →
  sync_actions order_state st2 = Done tt st3 l3 →
  SetOrderState order_state st = Done tt st3 (l1 ++ l2 ++ l3).
Proof.
  intros Hid H1 H2 H3. rewrite SetOrderState_matching by done.
  unfold bind at 1. rewrite H1. unfold bind at 1. by rewrite H2, H3.
Qed.

(** The three blocks one after the other, each on its own members. *)
Lemma SetOrderState_run st order_state :
  orderId st = orderId order_state →
  nodeStates order_state = [] ∨ nodeStates st ≠ [] →
  ∃ kn last_id last_seq l1 ke l2 acts l3,
    let st1 := nodes_set kn last_id last_seq st in
    let st2 := set_edgeStates (drop ke (edgeStates st)) st1 in
    sync_nodes order_state st = Done tt st1 l1
    ∧ (l1 = [] ∨ l1 = [LogLastNodeNotFound])
    ∧ sync_edges order_state st1 = Done tt st2 l2
    ∧ (l2 = [] ∨ l2 = [LogLastEdgeNotFound])
    ∧ for_each (actionStates order_state) SetActionState st2
      = Done tt (set_actionStates acts st2) l3
    ∧ SetOrderState order_state st
      = Done tt (set_actionStates acts st2) (l1 ++ l2 ++ l3).
Proof.
  intros Hid Hdef.
  destruct (sync_nodes_result st order_state Hdef)
    as (kn & last_id & last_seq & l1 & H1 & Hl1).
  destruct (sync_edges_result (nodes_set kn last_id last_seq st) order_state)
    as (ke & l2 & H2 & Hl2).
  destruct (merge_actions (actionStates order_state)
              (set_edgeStates (drop ke (edgeStates st))
                 (nodes_set kn last_id last_seq st)))
    as (acts & l3 & H3 & _).
  exists kn, last_id, last_seq, l1, ke, l2, acts, l3. simpl.
  split_and!; [done.. |].
  by eapply SetOrderState_compose.
Qed.

Lemma SetOrderState_undefined st order_state :
  orderId st = orderId order_state →
  nodeStates order_state ≠ [] → nodeStates st = [] →
  SetOrderState order_state st = Undefined.
Proof.
  intros Hid Hrep Hst. rewrite SetOrderState_matching by done.
  unfold bind at 1. by rewrite sync_nodes_undefined.
Qed.

Lemma SetOrderState_inv st order_state st' log :
  SetOrderState order_state st = Done tt st' log →
  ∃ kn last_id last_seq ke acts,
    st' = set_actionStates acts
            (set_edgeStates (drop ke (edgeStates st))
               (nodes_set kn last_id last_seq st))
    ∧ as_actionId <$> acts = as_actionId <$> actionStates st
    ∧ as_actionType <$> acts = as_actionType <$> actionStates st.
Proof.
  intros Hrun. destruct (decide (orderId st = orderId order_state)) as [Hid|Hid].
  - destruct (decide (nodeStates order_state = [] ∨ nodeStates st ≠ []))
      as [Hdef|Hundef].
    + destruct (sync_nodes_result st order_state Hdef)
        as (kn & last_id & last_seq & l1 & H1 & _).
      destruct (sync_edges_result (nodes_set kn last_id last_seq st) order_state)
        as (ke & l2 & H2 & _).
      destruct (merge_actions (actionStates order_state)
                  (set_edgeStates (drop ke (edgeStates st))
                     (nodes_set kn last_id last_seq st)))
        as (acts & l3 & H3 & Hids & Htypes & _).
      rewrite (SetOrderState_compose _ _ _ _ _ _ _ _ Hid H1 H2 H3) in Hrun.
      injection Hrun as <- _.
      by exists kn, last_id, last_seq, ke, acts.
    + rewrite SetOrderState_undefined in Hrun; [done.. | |].
      * intros Hrep. apply Hundef. by left.
      * destruct (nodeStates st); [done |]. exfalso. apply Hundef. by right.
  - unfold SetOrderState in Hrun. rewrite bind_get in Hrun.
    rewrite decide_True in Hrun by done. injection Hrun as <- _.
    exists 0%nat, (lastNodeId st), (lastNodeSequenceId st), 0%nat,
      (actionStates st).
    split; [by destruct st | done].
Qed.

(** X1: [SetOrderState] runs into undefined behaviour, the dereference
    of [begin()] of an empty [nodeStates], exactly when the order id
    matches, the report lists node states and the state holds none; in
    every other case it returns, and it never leaves by an exception. *)
Theorem X1_SetOrderState_undefined_iff_no_node_states st order_state :
  (orderId st = orderId order_state
   ∧ nodeStates order_state ≠ [] ∧ nodeStates st = [] →
   SetOrderState order_state st = Undefined)
  ∧ (¬ (orderId st = orderId order_state
        ∧ nodeStates order_state ≠ [] ∧ nodeStates st = []) →
     ∃ st' log, SetOrderState order_state st = Done tt st' log).
Proof.
  split.
  - intros (Hid & Hrep & Hst). by apply SetOrderState_undefined.
  - intros Hdef.
    destruct (decide (orderId st = orderId order_state)) as [Hid|Hid].
    + destruct (SetOrderState_run st order_state Hid)
        as (kn & lid & lseq & l1 & ke & l2 & acts & l3 & _ & _ & _ & _ & _ & Hrun).
      { destruct (decide (nodeStates order_state = [])) as [|Hrep]; [by left |].
        right. intros Hst. by apply Hdef. }
      by eexists _, _.
    + exists st, [LogOrderIdMismatch (orderId order_state) (orderId st)].
      unfold SetOrderState. rewrite bind_get. by rewrite decide_True.
Qed.

(** X2: whenever [SetOrderState] returns, the members of the state other
    than [nodeStates], [edgeStates], [actionStates], [lastNodeId] and
    [lastNodeSequenceId] are those before the call; the order id, the
    update id and the errors of the report are never taken over. *)
Theorem X2_SetOrderState_writes_five_members st order_state st' log :
  SetOrderState order_state st = Done tt st' log →
  st' = set_lastNodeSequenceId (lastNodeSequenceId st')
          (set_lastNodeId (lastNodeId st')
             (set_nodeStates (nodeStates st')
                (set_edgeStates (edgeStates st')
                   (set_actionStates (actionStates st') st))))
  ∧ orderId st' = orderId st
  ∧ orderUpdateId st' = orderUpdateId st
  ∧ errors st' = errors st.
Proof.
  intros (kn & lid & lseq & ke & acts & -> & _)%SetOrderState_inv. done.
Qed.

(** X3: whenever [SetOrderState] returns, the node states and the edge
    states are what is left of the previous ones after some of the
    first entries are erased: nothing is added, reordered or rewritten,
    and no reported node or edge state is copied into the state. *)
Theorem X3_SetOrderState_only_erases_front st order_state st' log :
  SetOrderState order_state st = Done tt st' log →
  (∃ k, nodeStates st' = drop k (nodeStates st))
  ∧ (∃ k, edgeStates st' = drop k (edgeStates st)).
Proof.
  intros (kn & lid & lseq & ke & acts & -> & _)%SetOrderState_inv.
  split; [by exists kn | by exists ke].
Qed.

(** X4: whenever [SetOrderState] returns, [actionStates] holds the same
    actions as before, position by position with the same [actionId] and
    [actionType]: a report never adds or removes an action state. *)
Theorem X4_SetOrderState_keeps_the_actions st order_state st' log :
  SetOrderState order_state st = Done tt st' log →
  as_actionId <$> actionStates st' = as_actionId <$> actionStates st
  ∧ as_actionType <$> actionStates st' = as_actionType <$> actionStates st
  ∧ length (actionStates st') = length (actionStates st).
Proof.
  intros (kn & lid & lseq & ke & acts & -> & Hids & Htypes)%SetOrderState_inv.
  simpl. split_and!; [done.. |].
  by rewrite <- (length_fmap as_actionId acts), Hids, length_fmap.
Qed.

(** Runs the edge block and the action loop after a known node block. *)
Lemma SetOrderState_after_nodes st order_state st1 l1 :
  orderId st = orderId order_state →
  sync_nodes order_state st = Done tt st1 l1 →
  ∃ ke l2 acts l3,
    SetOrderState order_state st
    = Done tt (set_actionStates acts
                 (set_edgeStates (drop ke (edgeStates st1)) st1))
        (l1 ++ l2 ++ l3).
Proof.
  intros Hid H1.
  destruct (sync_edges_result st1 order_state) as (ke & l2 & H2 & _).
  destruct (merge_actions (actionStates order_state)
              (set_edgeStates (drop ke (edgeStates st1)) st1))
    as (acts & l3 & H3 & _).
  exists ke, l2, acts, l3. by eapply SetOrderState_compose.
Qed.

(** X5: a report with the current order id and no node states clears
    [nodeStates] and takes over the reported last node, whatever the
    state held; this path never touches an element of a vector. *)
Theorem X5_SetOrderState_empty_report_clears_nodes st order_state :
  orderId st = orderId order_state →
  nodeStates order_state = [] →
  ∃ st' log,
    SetOrderState order_state st = Done tt st' log
    ∧ nodeStates st' = []
    ∧ lastNodeId st' = lastNodeId order_state
    ∧ lastNodeSequenceId st' = lastNodeSequenceId order_state.
Proof.
  intros Hid Hrep.
  destruct (SetOrderState_after_nodes st order_state _ _ Hid
              (sync_nodes_cleared st order_state Hrep))
    as (ke & l2 & acts & l3 & Hrun).
  eexists _, _. split; [exact Hrun |]. simpl. by rewrite drop_all.
Qed.

(** X6: when the order id matches, the report lists node states, node
    progress has advanced (the reported [lastNodeSequenceId] differs
    from the current one, or the first node states of state and report
    carry different sequence ids) and the first node state carries the
    reported [lastNodeSequenceId], exactly that first node state is
    erased and the reported last node is taken over. *)
Theorem X6_SetOrderState_head_reached st order_state (h : NodeState) tl :
  orderId st = orderId order_state →
  nodeStates order_state ≠ [] →
  nodeStates st = h :: tl →
  ns_sequenceId h = lastNodeSequenceId order_state →
  (lastNodeSequenceId order_state ≠ lastNodeSequenceId st
   ∨ ns_sequenceId <$> head (nodeStates st)
     ≠ ns_sequenceId <$> head (nodeStates order_state)) →
  ∃ st' log,
    SetOrderState order_state st = Done tt st' log
    ∧ nodeStates st' = tl
    ∧ lastNodeId st' = lastNodeId order_state
    ∧ lastNodeSequenceId st' = lastNodeSequenceId order_state.
Proof.
  intros Hid Hrep Hst Hhead Hadv.
  destruct (SetOrderState_after_nodes st order_state _ _ Hid
              (sync_nodes_head_reached st order_state h tl Hrep Hst Hhead Hadv))
    as (ke & l2 & acts & l3 & Hrun).
  by eexists _, _.
Qed.

(** X7: when the reported [lastNodeSequenceId] is the current one and
    the first node states of report and state carry the same sequence
    id, the node block does nothing: [nodeStates] stays, and so does
    [lastNodeId], also when the report names another last node id. *)
Theorem X7_SetOrderState_in_step_keeps_nodes st order_state :
  orderId st = orderId order_state →
  nodeStates order_state ≠ [] →
  nodeStates st ≠ [] →
  lastNodeSequenceId order_state = lastNodeSequenceId st →
  ns_sequenceId <$> head (nodeStates st)
    = ns_sequenceId <$> head (nodeStates order_state) →
  ∃ st' log,
    SetOrderState order_state st = Done tt st' log
    ∧ nodeStates st' = nodeStates st
    ∧ lastNodeId st' = lastNodeId st
    ∧ lastNodeSequenceId st' = lastNodeSequenceId st.
Proof.
  intros Hid Hrep Hst Hlast Hhead.
  destruct (SetOrderState_after_nodes st order_state _ _ Hid
              (sync_nodes_in_step st order_state Hrep Hst Hlast Hhead))
    as (ke & l2 & acts & l3 & Hrun).
  by eexists _, _.
Qed.

(** Runs the action loop after known node and edge blocks. *)
Lemma SetOrderState_after_edges st order_state st1 l1 st2 l2 :
  orderId st = orderId order_state →
  sync_nodes order_state st = Done tt st1 l1 →
  sync_edges order_state st1 = Done tt st2 l2 →
  ∃ acts l3,
    SetOrderState order_state st
    = Done tt (set_actionStates acts st2) (l1 ++ l2 ++ l3).
Proof.
  intros Hid H1 H2.
  destruct (merge_actions (actionStates order_state) st2)
    as (acts & l3 & H3 & _).
  exists acts, l3. by eapply SetOrderState_compose.
Qed.

(** X8: when the order id matches, the call is defined (the report
    lists no node states, or the state holds some) and the sequence id
    of the first reported edge state occurs among the edge states, the
    edge states in front of its first occurrence are erased: afterwards
    the first edge state carries that sequence id, and no erased one
    did. *)
Theorem X8_SetOrderState_aligns_edges st order_state (r : EdgeState) :
  orderId st = orderId order_state →
  nodeStates order_state = [] ∨ nodeStates st ≠ [] →
  head (edgeStates order_state) = Some r →
  es_sequenceId r ∈ es_sequenceId <$> edgeStates st →
  ∃ st' log it,
    SetOrderState order_state st = Done tt st' log
    ∧ edgeStates st' = drop it (edgeStates st)
    ∧ es_sequenceId <$> head (edgeStates st') = Some (es_sequenceId r)
    ∧ (∀ j e, (j < it)%nat → edgeStates st !! j = Some e →
         es_sequenceId e ≠ es_sequenceId r).
Proof.
  intros Hid Hdef Hhead (e & Hseq & He)%list_elem_of_fmap.
  destruct (edgeStates order_state) as [|r' rl] eqn:Hrep; [done |].
  injection Hhead as ->.
  destruct (list_find_elem_of (λ es, es_sequenceId es = es_sequenceId r)
              (edgeStates st) e He (eq_sym Hseq)) as [[it x] Hfind].
  destruct (sync_nodes_result st order_state Hdef)
    as (kn & lid & lseq & l1 & H1 & _).
  destruct (SetOrderState_after_edges st order_state _ _ _ _ Hid H1
              (sync_edges_aligned (nodes_set kn lid lseq st) order_state
                 r rl it x Hrep Hfind))
    as (acts & l3 & Hrun).
  apply list_find_Some in Hfind as (Hit & Hx & Hleast).
  eexists _, _, it. split; [exact Hrun |]. simpl. split_and!.
  - done.
  - rewrite head_lookup, lookup_drop, Nat.add_0_r, Hit. simpl. by rewrite Hx.
  - intros j e' Hj He'. by apply (Hleast j e').
Qed.

(** X9: when the order id matches and the call is defined (the report
    lists no node states, or the state holds some), a report with no
    edge states clears [edgeStates]. *)
Theorem X9_SetOrderState_empty_report_clears_edges st order_state :
  orderId st = orderId order_state →
  nodeStates order_state = [] ∨ nodeStates st ≠ [] →
  edgeStates order_state = [] →
  ∃ st' log,
    SetOrderState order_state st = Done tt st' log ∧ edgeStates st' = [].
Proof.
  intros Hid Hdef Hrep.
  destruct (sync_nodes_result st order_state Hdef)
    as (kn & lid & lseq & l1 & H1 & _).
  destruct (SetOrderState_after_edges st order_state _ _ _ _ Hid H1
              (sync_edges_cleared (nodes_set kn lid lseq st) order_state Hrep))
    as (acts & l3 & Hrun).
  by eexists _, _.
Qed.

(** X10: when the order id matches, the call is defined (the report
    lists no node states, or the state holds some), the state holds
    edge states and none of them carries the sequence id of the first
    reported edge state, the edge states stay as they are and "last
    edge not found" is printed. *)
Theorem X10_SetOrderState_unknown_edge_keeps_edges st order_state (r : EdgeState) :
  orderId st = orderId order_state →
  nodeStates order_state = [] ∨ nodeStates st ≠ [] →
  edgeStates st ≠ [] →
  head (edgeStates order_state) = Some r →
  es_sequenceId r ∉ es_sequenceId <$> edgeStates st →
  ∃ st' log,
    SetOrderState order_state st = Done tt st' log
    ∧ edgeStates st' = edgeStates st
    ∧ LogLastEdgeNotFound ∈ log.
Proof.
  intros Hid Hdef Hst Hhead Hnot.
  destruct (edgeStates order_state) as [|r' rl] eqn:Hrep; [done |].
  injection Hhead as ->.
  assert (list_find (λ es, es_sequenceId es = es_sequenceId r) (edgeStates st)
          = None) as Hfind.
  { apply list_find_None, Forall_forall. intros e He Hseq. apply Hnot.
    rewrite <- Hseq. by apply list_elem_of_fmap_2. }
  destruct (sync_nodes_result st order_state Hdef)
    as (kn & lid & lseq & l1 & H1 & _).
  destruct (SetOrderState_after_edges st order_state _ _ _ _ Hid H1
              (sync_edges_lost (nodes_set kn lid lseq st) order_state
                 r rl Hst Hrep Hfind))
    as (acts & l3 & Hrun).
  eexists _, _. split; [exact Hrun |]. split; [done |].
  rewrite !elem_of_app. right. left. by left.
Qed.

(** What a returning call with the current order id went through. *)
Lemma SetOrderState_matching_inv st order_state st' log :
  orderId st = orderId order_state →
  SetOrderState order_state st = Done tt st' log →
  ∃ kn last_id last_seq l1 ke l2 l3,
    (l1 = [] ∨ l1 = [LogLastNodeNotFound])
    ∧ (l2 = [] ∨ l2 = [LogLastEdgeNotFound])
    ∧ for_each (actionStates order_state) SetActionState
        (set_edgeStates (drop ke (edgeStates st))
           (nodes_set kn last_id last_seq st))
      = Done tt st' l3
    ∧ log = l1 ++ l2 ++ l3.
Proof.
  intros Hid Hrun.
  destruct (decide (nodeStates order_state = [] ∨ nodeStates st ≠ []))
    as [Hdef|Hundef].
  - destruct (SetOrderState_run st order_state Hid Hdef)
      as (kn & lid & lseq & l1 & ke & l2 & acts & l3
          & _ & Hl1 & _ & Hl2 & H3 & Hrun').
    rewrite Hrun' in Hrun. injection Hrun as <- <-.
    by exists kn, lid, lseq, l1, ke, l2, l3.
  - rewrite SetOrderState_undefined in Hrun; [done.. | |].
    + intros Hrep. apply Hundef. by left.
    + destruct (nodeStates st); [done |]. exfalso. apply Hundef. by right.
Qed.

(** X11: an action state whose id no reported action state carries is
    left exactly as it is, at its position. *)
Theorem X11_SetOrderState_keeps_unreported_actions st order_state st' log :
  SetOrderState order_state st = Done tt st' log →
  ∀ j a, actionStates st !! j = Some a →
    as_actionId a ∉ as_actionId <$> actionStates order_state →
    actionStates st' !! j = Some a.
Proof.
  intros Hrun j a Hj Hnot.
  destruct (decide (orderId st = orderId order_state)) as [Hid|Hid].
  - destruct (SetOrderState_matching_inv st order_state st' log Hid Hrun)
      as (kn & lid & lseq & l1 & ke & l2 & l3 & _ & _ & H3 & _).
    destruct (merge_actions (actionStates order_state)
                (set_edgeStates (drop ke (edgeStates st))
                   (nodes_set kn lid lseq st)))
      as (acts & l3' & H3' & _ & _ & Hkeep & _).
    rewrite H3' in H3. injection H3 as <- _. simpl. by apply Hkeep.
  - unfold SetOrderState in Hrun. rewrite bind_get in Hrun.
    rewrite decide_True in Hrun by done. by injection Hrun as <- _.
Qed.

(** X12: after a call with the current order id, "action state not
    found" is in the output for an id exactly when a reported action
    state carries the id and no action state of the state does. *)
Theorem X12_SetOrderState_reports_unknown_actions st order_state st' log :
  orderId st = orderId order_state →
  SetOrderState order_state st = Done tt st' log →
  ∀ id, LogActionNotFound id ∈ log
        ↔ id ∈ as_actionId <$> actionStates order_state
          ∧ id ∉ as_actionId <$> actionStates st.
Proof.
  intros Hid Hrun id.
  destruct (SetOrderState_matching_inv st order_state st' log Hid Hrun)
    as (kn & lid & lseq & l1 & ke & l2 & l3 & Hl1 & Hl2 & H3 & ->).
  destruct (merge_actions (actionStates order_state)
              (set_edgeStates (drop ke (edgeStates st))
                 (nodes_set kn lid lseq st)))
    as (acts & l3' & H3' & _ & _ & _ & Hlog & _).
  rewrite H3' in H3. injection H3 as _ <-. simpl in Hlog.
  rewrite !elem_of_app, Hlog. split.
  - intros [Hin | [Hin | (id' & [= ->] & Hrep & Hnot)]]; [| | done].
    + destruct Hl1 as [-> | ->]; [by inversion Hin |].
      apply list_elem_of_singleton in Hin. discriminate.
    + destruct Hl2 as [-> | ->]; [by inversion Hin |].
      apply list_elem_of_singleton in Hin. discriminate.
  - intros [Hrep Hnot]. right. right. by exists id.
Qed.


(** *** [SetActionState] twice *)

Lemma bind_done {S A B} (m : M S A) (k : A → M S B) s a s1 l1 b s2 l2 :
  m s = Done a s1 l1 → k a s1 = Done b s2 l2 →
  bind m k s = Done b s2 (l1 ++ l2).
Proof. unfold bind. by intros -> ->. Qed.

(** X14: of two [SetActionState] calls for the same action id the second
    one decides: the state after both is the state after the second
    alone. *)
Theorem X14_SetActionState_last_write_wins st (first second : ActionState) :
  as_actionId first = as_actionId second →
  ∃ st' log log',
    (SetActionState first ;; SetActionState second) st = Done tt st' log
    ∧ SetActionState second st = Done tt st' log'.
Proof.
  intros Hsame.
  destruct (list_find (λ a, as_actionId second = as_actionId a) (actionStates st))
    as [[it b]|] eqn:Hfind.
  - assert (list_find (λ a, as_actionId first = as_actionId a) (actionStates st)
            = Some (it, b)) as Hfind1 by by rewrite Hsame.
    set (w1 := write_action (as_actionStatus first) (as_resultDescription first)).
    set (w2 := write_action (as_actionStatus second) (as_resultDescription second)).
    assert (∃ b', list_find (λ a, as_actionId second = as_actionId a)
                    (alter w1 it (actionStates st)) = Some (it, b'))
      as [b' Hfind2].
    { apply first_with_id_find, first_with_id_ids. unfold w1.
      rewrite (alter_write_keeps as_actionId) by done.
      apply first_with_id_ids, first_with_id_find. by exists b. }
    exists (set_actionStates (alter w2 it (actionStates st)) st), [], [].
    split; [| by apply (SetActionState_found st second b it)].
    erewrite bind_done;
      [| by apply (SetActionState_found st first b it)
       | by apply (SetActionState_found
                     (set_actionStates (alter w1 it (actionStates st)) st)
                     second b' it)].
    assert (alter w2 it (alter w1 it (actionStates st))
            = alter w2 it (actionStates st)) as Heq.
    { rewrite list_alter_alter_eq. by apply list_alter_ext. }
    simpl. fold w2. by rewrite Heq.
  - assert (list_find (λ a, as_actionId first = as_actionId a) (actionStates st)
            = None) as Hfind1 by by rewrite Hsame.
    exists st, [LogActionNotFound (as_actionId first);
                LogActionNotFound (as_actionId second)],
      [LogActionNotFound (as_actionId second)].
    split; [| by apply SetActionState_missing].
    by erewrite bind_done; [| by apply SetActionState_missing
                              | by apply SetActionState_missing].
Qed.

(** *** The same report a second time *)

Lemma first_with_id_fst (action_id : string) (it : nat) (l : list ActionState) :
  first_with_id action_id it l
  ↔ fst <$> list_find (λ a, action_id = as_actionId a) l = Some it.
Proof.
  rewrite first_with_id_find. split.
  - intros [a ->]. done.
  - destruct (list_find _ l) as [[i a]|]; [| done].
    intros [= ->]. by exists a.
Qed.

Lemma SetActionState_elsewhere st (u : ActionState) st' log j :
  SetActionState u st = Done tt st' log →
  ¬ first_with_id (as_actionId u) j (actionStates st) →
  actionStates st' !! j = actionStates st !! j.
Proof.
  intros Hrun Hnot.
  destruct (list_find (λ a, as_actionId u = as_actionId a) (actionStates st))
    as [[it b]|] eqn:Hfind.
  - rewrite (SetActionState_found st u b it Hfind) in Hrun.
    injection Hrun as <- _. simpl. apply list_lookup_alter_ne.
    intros ->. apply Hnot, first_with_id_find. by exists b.
  - rewrite (SetActionState_missing st u Hfind) in Hrun.
    by injection Hrun as <- _.
Qed.

Lemma merge_actions_elsewhere (l : list ActionState) st st' log j :
  for_each l SetActionState st = Done tt st' log →
  (∀ u, u ∈ l → ¬ first_with_id (as_actionId u) j (actionStates st)) →
  actionStates st' !! j = actionStates st !! j.
Proof.
  revert st log. induction l as [|u l IH]; intros st log Hrun Hnot.
  - by injection Hrun as <- _.
  - destruct (SetActionState_step st u)
      as (acts1 & log1 & Hrun1 & Hids1 & _).
    simpl in Hrun. unfold bind in Hrun. rewrite Hrun1 in Hrun.
    destruct (for_each l SetActionState (set_actionStates acts1 st))
      as [| |[] st2 log2] eqn:Hrun2; [done.. |].
    injection Hrun as <- _.
    rewrite (IH _ _ Hrun2).
    + apply (SetActionState_elsewhere st u _ _ j Hrun1), Hnot. by left.
    + intros r Hr Hfirst. apply (Hnot r); [by right |].
      apply first_with_id_ids. rewrite <- Hids1. by apply first_with_id_ids.
Qed.

Lemma merge_actions_twice (l : list ActionState) st st' log :
  NoDup (as_actionId <$> l) →
  for_each l SetActionState st = Done tt st' log →
  ∃ log', for_each l SetActionState st' = Done tt st' log'.
Proof.
  intros Hnodup Hrun.
  destruct (merge_actions l st)
    as (acts & log1 & Hrun1 & Hids & _ & _ & _ & Hwrite).
  rewrite Hrun1 in Hrun. injection Hrun as <- <-.
  destruct (merge_actions l (set_actionStates acts st))
    as (acts2 & log2 & Hrun2 & Hids2 & _ & _ & _ & Hwrite2).
  simpl in Hids2, Hwrite2. exists log2. rewrite Hrun2. f_equal.
  assert (acts2 = acts) as ->; [| done].
  apply list_eq. intros j.
  destruct (acts !! j) as [c|] eqn:Hc.
  - assert (∃ a, actionStates st !! j = Some a) as [a Ha].
    { apply lookup_lt_is_Some.
      rewrite <- (length_fmap as_actionId), <- Hids, length_fmap.
      by eapply lookup_lt_Some. }
    destruct (decide (Exists
      (λ u, fst <$> list_find (λ a, as_actionId u = as_actionId a) acts
            = Some j) l)) as [Hsome | Hnone].
    + apply Exists_exists in Hsome as (u & Hu & Hfirst%first_with_id_fst).
      assert (first_with_id (as_actionId u) j (actionStates st)) as Hfirst0.
      { apply first_with_id_ids. rewrite <- Hids. by apply first_with_id_ids. }
      pose proof (Hwrite Hnodup u j a Hu Hfirst0 Ha) as Hc'.
      rewrite Hc' in Hc. injection Hc as <-.
      by rewrite (Hwrite2 Hnodup u j _ Hu Hfirst Hc').
    + rewrite <- Hc.
      apply (merge_actions_elsewhere l (set_actionStates acts st) _ _ j Hrun2).
      intros u Hu Hfirst. apply Hnone, Exists_exists. exists u.
      split; [done |]. by apply first_with_id_fst.
  - apply lookup_ge_None. apply lookup_ge_None in Hc.
    by rewrite <- (length_fmap as_actionId), Hids2, length_fmap.
Qed.

Lemma sync_edges_twice st order_state st' log :
  sync_edges order_state st = Done tt st' log →
  ∃ log', sync_edges order_state st' = Done tt st' log'.
Proof.
  intros Hrun.
  destruct (edgeStates order_state) as [|r rl] eqn:Hrep.
  { rewrite (sync_edges_cleared st order_state Hrep) in Hrun.
    injection Hrun as <- _. exists [].
    by rewrite (sync_edges_cleared _ order_state Hrep). }
  destruct (list_find (λ es, es_sequenceId es = es_sequenceId r) (edgeStates st))
    as [[it e]|] eqn:Hfind.
  - rewrite (sync_edges_aligned st order_state r rl it e Hrep Hfind) in Hrun.
    injection Hrun as <- _. exists [].
    apply list_find_Some in Hfind as (Hit & Hseq & _).
    rewrite (sync_edges_aligned _ order_state r rl 0%nat e Hrep); [done |].
    apply list_find_Some. simpl. split_and!; [| done | intros; lia].
    by rewrite lookup_drop, Nat.add_0_r.
  - destruct (edgeStates st) as [|h tl] eqn:Hst.
    + unfold sync_edges, bind, get in Hrun. rewrite Hst in Hrun.
      injection Hrun as <- _. exists [].
      unfold sync_edges, bind, get. by rewrite Hst.
    + assert (edgeStates st ≠ []) as Hne by by rewrite Hst.
      rewrite <- Hst in Hfind.
      rewrite (sync_edges_lost st order_state r rl Hne Hrep Hfind) in Hrun.
      injection Hrun as <- _. exists [LogLastEdgeNotFound].
      by apply (sync_edges_lost st order_state r rl).
Qed.

(** The node block reads and writes the node members only. *)
Lemma sync_nodes_frame st order_state es acts st1 l1 :
  sync_nodes order_state st = Done tt st1 l1 →
  sync_nodes order_state (set_actionStates acts (set_edgeStates es st))
  = Done tt (set_actionStates acts (set_edgeStates es st1)) l1.
Proof.
  unfold sync_nodes, bind, get. simpl.
  destruct (list_find (λ ns, ns_sequenceId ns = lastNodeSequenceId st)
              (nodeStates st)) as [[it x]|].
  all: destruct (nodeStates order_state) as [|r rl].
  all: try (by intros [= <- <-]).
  all: destruct (nodeStates st) as [|h tl]; [by case_decide |].
  all: case_decide; effects.
  all: try destruct (bool_decide (ns_sequenceId h ≠ ns_sequenceId r)).
  all: try case_decide.
  all: by intros [= <- <-].
Qed.

(** The edge block reads and writes the edge states only. *)
Lemma sync_edges_frame_actions st order_state acts st2 l2 :
  sync_edges order_state st = Done tt st2 l2 →
  sync_edges order_state (set_actionStates acts st)
  = Done tt (set_actionStates acts st2) l2.
Proof.
  unfold sync_edges, bind, get. simpl.
  destruct (edgeStates order_state) as [|r rl].
  - destruct (edgeStates st); by intros [= <- <-].
  - destruct (list_find (λ es, es_sequenceId es = es_sequenceId r)
                (edgeStates st)) as [[it x]|].
    all: destruct (edgeStates st) as [|h tl]; [by intros [= <- <-] |].
    all: case_decide; effects; by intros [= <- <-].
Qed.

(** X15: a report that repeats is absorbed.  When the reported action
    ids are pairwise different and the node block has nothing to do
    (the report lists no node states, or it is in step with the state),
    a second call with the same report returns the state that the first
    call left. *)
Theorem X15_SetOrderState_repeated_report_absorbed st order_state :
  orderId st = orderId order_state →
  NoDup (as_actionId <$> actionStates order_state) →
  nodeStates order_state = []
  ∨ (nodeStates st ≠ []
     ∧ lastNodeSequenceId order_state = lastNodeSequenceId st
     ∧ ns_sequenceId <$> head (nodeStates st)
       = ns_sequenceId <$> head (nodeStates order_state)) →
  ∃ st' log log',
    SetOrderState order_state st = Done tt st' log
    ∧ SetOrderState order_state st' = Done tt st' log'.
Proof.
  intros Hid Hnodup Hnodes.
  assert (∃ st1 l1 l1',
            sync_nodes order_state st = Done tt st1 l1
            ∧ sync_nodes order_state st1 = Done tt st1 l1'
            ∧ orderId st1 = orderId st) as (st1 & l1 & l1' & H1 & H1' & Hid1).
  { destruct (decide (nodeStates order_state = [])) as [Hrep | Hrep].
    - eexists _, [], []. split; [by apply sync_nodes_cleared |].
      rewrite sync_nodes_cleared by done. split; [| done].
      unfold nodes_set. simpl. by rewrite !drop_all.
    - destruct Hnodes as [? | (Hst & Hlast & Hhead)]; [done |].
      exists st, [], []. by rewrite sync_nodes_in_step. }
  destruct (sync_edges_result st1 order_state) as (ke & l2 & H2 & _).
  destruct (sync_edges_twice _ _ _ _ H2) as (l2' & H2').
  set (st2 := set_edgeStates (drop ke (edgeStates st1)) st1) in *.
  destruct (merge_actions (actionStates order_state) st2)
    as (acts & l3 & H3 & _).
  destruct (merge_actions_twice _ _ _ _ Hnodup H3) as (l3' & H3').
  set (st3 := set_actionStates acts st2) in *.
  exists st3, (l1 ++ l2 ++ l3), (l1' ++ l2' ++ l3').
  split; [by eapply SetOrderState_compose |].
  eapply SetOrderState_compose.
  - subst st3 st2. simpl. by rewrite Hid1.
  - by apply sync_nodes_frame.
  - by apply sync_edges_frame_actions.
  - done.
Qed.

End Synchronisation.

(** ** Header, operating mode and factsheet *)

Section Header.

Context {Velocity SafetyState Load Info FactsheetBody : Type}.
Context (AUTOMATIC SEMIAUTOMATIC MANUAL SERVICE TEACHIN : string).
Implicit Types st : @StateMsg Velocity SafetyState Load Info.
Implicit Types this : @StateClass Velocity SafetyState Load Info FactsheetBody.


(** X17: after [SetFactsheet] the stored factsheet has the version, the
    manufacturer and the serial number of the state, whatever the
    message carried there, and the rest of the message; the state
    message is not touched.  That header is a copy taken by the call: a
    [SetVersion] after it changes what [GetVersion] returns and not the
    version of the factsheet; with the two calls the other way round
    both agree. *)
Theorem X17_SetFactsheet_copies_the_header_once this
    (factsheet_msg : @Factsheet FactsheetBody) (v : string) :
  (∃ this',
     SetFactsheet factsheet_msg this = Done tt this' []
     ∧ state this' = state this
     ∧ fs_version (factsheet this') = version (state this)
     ∧ fs_manufacturer (factsheet this') = manufacturer (state this)
     ∧ fs_serialNumber (factsheet this') = serialNumber (state this)
     ∧ fs_body (factsheet this') = fs_body factsheet_msg)
  ∧ (∃ this',
       (SetFactsheet factsheet_msg ;; on_state (SetVersion v)) this
         = Done tt this' []
       ∧ on_state GetVersion this' = Done v this' []
       ∧ fs_version (factsheet this') = version (state this))
  ∧ (∃ this',
       (on_state (SetVersion v) ;; SetFactsheet factsheet_msg) this
         = Done tt this' []
       ∧ on_state GetVersion this' = Done v this' []
       ∧ fs_version (factsheet this') = v).
Proof.
  split_and!; eexists; split_and!; try reflexivity.
  all: unfold on_state, GetVersion, bind, get, ret; simpl; by destruct this.
Qed.

End Header.

(** ** The further theorems at work on the sample order *)

Example reached_n2_run :
  SetOrderState reached_n2 at_n0
  = Done tt after_reached_n2 [LogActionNotFound "a9"].
Proof. reflexivity. Qed.

Lemma X1_SetOrderState_undefined_iff_no_node_states_witness :
  SetOrderState early_report idle = Undefined
  ∧ ∃ st' log, SetOrderState reached_n2 at_n0 = Done tt st' log.
Proof.
  split.
  - apply (proj1 (X1_SetOrderState_undefined_iff_no_node_states
                    idle early_report)).
    split_and!; [reflexivity | vm_compute; discriminate | reflexivity].
  - apply (proj2 (X1_SetOrderState_undefined_iff_no_node_states
                    at_n0 reached_n2)).
    intros (_ & _ & Hst). vm_compute in Hst. discriminate.
Defined.

Lemma X2_SetOrderState_writes_five_members_witness :
  orderId after_reached_n2 = orderId at_n0
  ∧ orderUpdateId after_reached_n2 = orderUpdateId at_n0
  ∧ errors after_reached_n2 = errors at_n0.
Proof.
  apply (X2_SetOrderState_writes_five_members at_n0 reached_n2
           after_reached_n2 [LogActionNotFound "a9"]).
  reflexivity.
Defined.

Lemma X3_SetOrderState_only_erases_front_witness :
  (∃ k, nodeStates after_reached_n2 = drop k (nodeStates at_n0))
  ∧ (∃ k, edgeStates after_reached_n2 = drop k (edgeStates at_n0)).
Proof.
  apply (X3_SetOrderState_only_erases_front at_n0 reached_n2
           after_reached_n2 [LogActionNotFound "a9"]).
  reflexivity.
Defined.

Lemma X4_SetOrderState_keeps_the_actions_witness :
  as_actionId <$> actionStates after_reached_n2
    = as_actionId <$> actionStates at_n0
  ∧ as_actionType <$> actionStates after_reached_n2
    = as_actionType <$> actionStates at_n0
  ∧ length (actionStates after_reached_n2) = length (actionStates at_n0).
Proof.
  apply (X4_SetOrderState_keeps_the_actions at_n0 reached_n2
           after_reached_n2 [LogActionNotFound "a9"]).
  reflexivity.
Defined.

Lemma X5_SetOrderState_empty_report_clears_nodes_witness :
  ∃ st' log,
    SetOrderState finished_report at_n0 = Done tt st' log
    ∧ nodeStates st' = []
    ∧ lastNodeId st' = "n6"
    ∧ lastNodeSequenceId st' = 6.
Proof.
  apply (X5_SetOrderState_empty_report_clears_nodes at_n0 finished_report);
    reflexivity.
Defined.

Lemma X6_SetOrderState_head_reached_witness :
  ∃ st' log,
    SetOrderState reached_n2 at_n0 = Done tt st' log
    ∧ nodeStates st' = [n4; n6]
    ∧ lastNodeId st' = "n2"
    ∧ lastNodeSequenceId st' = 2.
Proof.
  apply (X6_SetOrderState_head_reached at_n0 reached_n2 n2 [n4; n6]).
  - reflexivity.
  - vm_compute. discriminate.
  - reflexivity.
  - reflexivity.
  - left. vm_compute. discriminate.
Defined.

Lemma X7_SetOrderState_in_step_keeps_nodes_witness :
  ∃ st' log,
    SetOrderState in_step_report at_n0 = Done tt st' log
    ∧ nodeStates st' = [n2; n4; n6]
    ∧ lastNodeId st' = "n0"
    ∧ lastNodeSequenceId st' = 0.
Proof.
  apply (X7_SetOrderState_in_step_keeps_nodes at_n0 in_step_report).
  - reflexivity.
  - vm_compute. discriminate.
  - vm_compute. discriminate.
  - reflexivity.
  - reflexivity.
Defined.

Lemma X8_SetOrderState_aligns_edges_witness :
  ∃ st' log it,
    SetOrderState reached_n2 at_n0 = Done tt st' log
    ∧ edgeStates st' = drop it [e1; e3; e5]
    ∧ es_sequenceId <$> head (edgeStates st') = Some 3.
Proof.
  destruct (X8_SetOrderState_aligns_edges at_n0 reached_n2 e3)
    as (st' & log & it & Hrun & Hdrop & Hhead & _).
  - reflexivity.
  - right. vm_compute. discriminate.
  - reflexivity.
  - in_list.
  - by exists st', log, it.
Defined.

Lemma X9_SetOrderState_empty_report_clears_edges_witness :
  ∃ st' log,
    SetOrderState finished_report at_n0 = Done tt st' log
    ∧ edgeStates st' = [].
Proof.
  apply (X9_SetOrderState_empty_report_clears_edges at_n0 finished_report).
  - reflexivity.
  - by left.
  - reflexivity.
Defined.

Lemma X10_SetOrderState_unknown_edge_keeps_edges_witness :
  ∃ st' log,
    SetOrderState in_step_report at_n0 = Done tt st' log
    ∧ edgeStates st' = [e1; e3; e5]
    ∧ LogLastEdgeNotFound ∈ log.
Proof.
  apply (X10_SetOrderState_unknown_edge_keeps_edges at_n0 in_step_report
           (mkEdgeState "e9" 9 false)).
  - reflexivity.
  - right. vm_compute. discriminate.
  - vm_compute. discriminate.
  - reflexivity.
  - in_list.
Defined.

Lemma X11_SetOrderState_keeps_unreported_actions_witness :
  actionStates after_reached_n2 !! 1%nat = Some drop_off.
Proof.
  apply (X11_SetOrderState_keeps_unreported_actions at_n0 reached_n2
           after_reached_n2 [LogActionNotFound "a9"]).
  - reflexivity.
  - reflexivity.
  - in_list.
Defined.

Lemma X12_SetOrderState_reports_unknown_actions_witness :
  LogActionNotFound "a9" ∈ [LogActionNotFound "a9"].
Proof.
  apply (X12_SetOrderState_reports_unknown_actions at_n0 reached_n2
           after_reached_n2 [LogActionNotFound "a9"]).
  - reflexivity.
  - reflexivity.
  - split; in_list.
Defined.


Lemma X14_SetActionState_last_write_wins_witness :
  ∃ st' log log',
    (SetActionState (mkActionState "a1" "pick" "RUNNING" "") ;;
     SetActionState (mkActionState "a1" "pick" "FINISHED" "done")) at_n0
      = Done tt st' log
    ∧ SetActionState (mkActionState "a1" "pick" "FINISHED" "done") at_n0
      = Done tt st' log'.
Proof.
  apply (X14_SetActionState_last_write_wins at_n0). reflexivity.
Defined.

Lemma X15_SetOrderState_repeated_report_absorbed_witness :
  ∃ st' log log',
    SetOrderState steady_report at_n0 = Done tt st' log
    ∧ SetOrderState steady_report st' = Done tt st' log'.
Proof.
  apply (X15_SetOrderState_repeated_report_absorbed at_n0 steady_report).
  - reflexivity.
  - in_list.
  - right. split_and!; [vm_compute; discriminate | reflexivity..].
Defined.


Example factsheet_of_vehicle :
  ∃ this',
    SetFactsheet (mkFactsheet "9.9" "other" "sn-1" ["agv"]) vehicle
      = Done tt this' []
    ∧ factsheet this' = mkFactsheet "2.0.0" "fml" "" ["agv"].
Proof. eexists. split; reflexivity. Qed.
